(** * FocusMate: the Socket.io room coordination handlers

    A shallow embedding of the server-side event handlers of
    [initializeSocket] (join-room, leave-room, send-message, the timer
    commands, timer-tick, the WebRTC signaling events and disconnect)
    together with [handleTimerAction] and [handleLeaveRoom].

    Modelling choices, all read off the source:
    - the two module-level tables [roomMessages] and [roomUsers] are finite
      maps keyed by room id; the inner [Map] of [roomUsers] keeps its
      insertion order, so it is an association list with the semantics of
      [Map.prototype.set] and [Map.prototype.delete];
    - the Mongoose collection [Room] is a finite map from [roomId] (declared
      unique in the schema) to the fields the handlers read and write;
      its calls are taken to resolve, so the [catch] arms are not reached;
    - Socket.io's adapter is a finite map from room name to the set of
      socket ids in it; every socket sits in the room named by its own id;
    - a JavaScript string that the code inspects ([content]) is the list of
      its UTF-16 code units; identifiers are plain strings;
    - the clock is an input of every handler turn: [Date.now()] and
      [new Date()] read the same instant [now], in milliseconds;
    - each handler returns the next state and the list of emissions, each
      emission with the set of sockets it is delivered to. *)

From Stdlib Require Import ZArith NArith Ascii DecimalString DecimalN.
From stdpp Require Import gmap strings list fin_maps.

Local Open Scope Z_scope.

(** ** JavaScript strings and [String.prototype.trim] *)

Module JsString.

(** A string as the sequence of its UTF-16 code units. *)
Definition t := list N.

(** Embedding of a literal whose characters are below 256. *)
Fixpoint lit (s : string) : t :=
  match s with
  | EmptyString => []
  | String a s' => N_of_ascii a :: lit s'
  end.

(** ECMAScript WhiteSpace and LineTerminator code points, all of them in
    the basic plane: TAB, LF, VT, FF, CR, SP, NBSP, the Zs category,
    LS, PS and the byte order mark. *)
Definition isWhiteSpace (c : N) : bool :=
  ((9 <=? c) && (c <=? 13) || (c =? 32) || (c =? 160) || (c =? 5760)
   || (8192 <=? c) && (c <=? 8202) || (c =? 8232) || (c =? 8233)
   || (c =? 8239) || (c =? 8287) || (c =? 12288) || (c =? 65279))%N.

Fixpoint trimStart (s : t) : t :=
  match s with
  | [] => []
  | c :: s' => if isWhiteSpace c then trimStart s' else s
  end.

Definition trimEnd (s : t) : t := rev (trimStart (rev s)).

Definition trim (s : t) : t := trimEnd (trimStart s).

(** [!content] for a string: only the empty string is falsy. *)
Definition truthy (s : t) : bool :=
  match s with [] => false | _ :: _ => true end.

End JsString.

(** [Number.prototype.toString] on a non-negative integer, and the reading
    of such a rendering back as a number. *)
Definition toString (n : N) : string := NilZero.string_of_uint (N.to_uint n).

Definition toNumber (s : string) : option N :=
  option_map N.of_uint (NilZero.uint_of_string s).

(** ** Data model (interfaces [TimerState], [RoomUser], [Message]) *)

Record TimerState := mkTimerState {
  isRunning : bool;
  timeRemaining : Z;
  isBreak : bool;
  startedAt : option N;
  workDuration : Z;
  breakDuration : Z
}.

Record RoomUser := mkRoomUser {
  user_id : string;
  user_username : string;
  socketId : string
}.

(** [timestamp] is the instant whose ISO rendering the code stores, and
    [startedAt] above the instant of the stored [Date]. *)
Record Message := mkMessage {
  msg_id : string;
  msg_userId : string;
  msg_username : string;
  content : JsString.t;
  timestamp : N
}.

(** The part of a [Room] document the socket handlers touch. *)
Record RoomDoc := mkRoomDoc {
  host : string;
  timerState : TimerState
}.

(** Payload of [timer-tick]. *)
Record TickData := mkTickData {
  data_timeRemaining : Z;
  data_isRunning : bool;
  data_isBreak : bool
}.

(** The fields the connection callback keeps on [socket]; [socket.id] is the
    key under which the socket is stored. *)
Record Socket := mkSocket {
  userId : string;
  username : string;
  currentRoom : option string
}.

(** An update document with dotted [timerState.*] paths: a field is written
    only when its path is present. *)
Record TimerUpdate := mkTimerUpdate {
  upd_isRunning : option bool;
  upd_timeRemaining : option Z;
  upd_isBreak : option bool;
  upd_startedAt : option (option N)
}.

Definition applyUpdate (u : TimerUpdate) (ts : TimerState) : TimerState :=
  {| isRunning := default (isRunning ts) (upd_isRunning u);
     timeRemaining := default (timeRemaining ts) (upd_timeRemaining u);
     isBreak := default (isBreak ts) (upd_isBreak u);
     startedAt := default (startedAt ts) (upd_startedAt u);
     workDuration := workDuration ts;
     breakDuration := breakDuration ts |}.

(** Schema defaults of [timerState]. *)
Definition defaultTimerState : TimerState :=
  {| isRunning := false; timeRemaining := 25 * 60; isBreak := false;
     startedAt := None; workDuration := 25 * 60; breakDuration := 5 * 60 |}.

(** ** Events *)

Inductive Action := start | pause | reset | switch.

Inductive ClientEvent :=
| join_room (roomId : string)
| leave_room
| send_message (content : JsString.t)
| timer_start
| timer_pause
| timer_reset
| timer_switch_mode
| timer_tick (data : TickData)
| video_ready
| video_offer (targetSocketId : string) (offer : string)
| video_answer (targetSocketId : string) (answer : string)
| video_ice_candidate (targetSocketId : string) (candidate : string)
| video_leave
| disconnect.

(** What a [timer-sync] carries: the whole state after a command, or the
    tick payload as received. *)
Inductive SyncPayload :=
| sync_state (newState : TimerState)
| sync_tick (data : TickData).

Inductive ServerEvent :=
| error (message : string)
| room_state (ts : TimerState) (messages : list Message)
    (users : list RoomUser) (hostId : string)
| user_joined (u : RoomUser)
| user_left (u : RoomUser)
| users_update (users : list RoomUser)
| receive_message (m : Message)
| timer_sync (p : SyncPayload)
| video_user_ready (socketId : string) (username : string)
| fwd_video_offer (fromSocketId : string) (username : string) (offer : string)
| fwd_video_answer (fromSocketId : string) (answer : string)
| fwd_video_ice_candidate (fromSocketId : string) (candidate : string)
| video_user_left (socketId : string).

Record Emission := mkEmission {
  recipients : gset string;
  event : ServerEvent
}.

(** ** JavaScript [Map] with insertion order *)

Module JsMap.

Section Ops.
Context {V : Type}.

Fixpoint set (k : string) (v : V) (m : list (string * V)) : list (string * V) :=
  match m with
  | [] => [(k, v)]
  | (k', v') :: m' =>
      if decide (k' = k) then (k, v) :: m' else (k', v') :: set k v m'
  end.

Fixpoint delete (k : string) (m : list (string * V)) : list (string * V) :=
  match m with
  | [] => []
  | (k', v') :: m' =>
      if decide (k' = k) then delete k m' else (k', v') :: delete k m'
  end.

Definition values (m : list (string * V)) : list V := map snd m.

Definition size (m : list (string * V)) : nat := length m.

End Ops.

End JsMap.

(** ** Server state *)

Record State := mkState {
  Room : gmap string RoomDoc;
  roomMessages : gmap string (list Message);
  roomUsers : gmap string (list (string * RoomUser));
  sockets : gmap string Socket;
  adapter : gmap string (gset string)
}.

Definition with_Room (f : gmap string RoomDoc → gmap string RoomDoc)
    (st : State) : State :=
  mkState (f (Room st)) (roomMessages st) (roomUsers st) (sockets st) (adapter st).

Definition with_roomMessages
    (f : gmap string (list Message) → gmap string (list Message))
    (st : State) : State :=
  mkState (Room st) (f (roomMessages st)) (roomUsers st) (sockets st) (adapter st).

Definition with_roomUsers
    (f : gmap string (list (string * RoomUser)) → gmap string (list (string * RoomUser)))
    (st : State) : State :=
  mkState (Room st) (roomMessages st) (f (roomUsers st)) (sockets st) (adapter st).

Definition with_sockets (f : gmap string Socket → gmap string Socket)
    (st : State) : State :=
  mkState (Room st) (roomMessages st) (roomUsers st) (f (sockets st)) (adapter st).

Definition with_adapter
    (f : gmap string (gset string) → gmap string (gset string))
    (st : State) : State :=
  mkState (Room st) (roomMessages st) (roomUsers st) (sockets st) (f (adapter st)).

(** A server that has just started over the durable collection [docs]. *)
Definition initial (docs : gmap string RoomDoc) : State :=
  mkState docs ∅ ∅ ∅ ∅.

(** ** Socket.io rooms *)

Definition members (a : gmap string (gset string)) (room : string) : gset string :=
  default ∅ (a !! room).

(** [socket.join(room)] *)
Definition adapterJoin (sid room : string)
    (a : gmap string (gset string)) : gmap string (gset string) :=
  <[room := {[sid]} ∪ members a room]> a.

(** [socket.leave(room)] *)
Definition adapterLeave (sid room : string)
    (a : gmap string (gset string)) : gmap string (gset string) :=
  alter (λ s, s ∖ {[sid]}) room a.

(** What the transport does when a connection closes: the socket leaves
    every room. *)
Definition adapterLeaveAll (sid : string)
    (a : gmap string (gset string)) : gmap string (gset string) :=
  (λ s, s ∖ {[sid]}) <$> a.

(** [socket.emit(ev)] *)
Definition socketEmit (sid : string) (ev : ServerEvent) : Emission :=
  mkEmission {[sid]} ev.

(** [io.to(room).emit(ev)] *)
Definition ioTo (st : State) (room : string) (ev : ServerEvent) : Emission :=
  mkEmission (members (adapter st) room) ev.

(** [socket.to(room).emit(ev)]: the room without the sender. *)
Definition socketTo (st : State) (sid room : string) (ev : ServerEvent) : Emission :=
  mkEmission (members (adapter st) room ∖ {[sid]}) ev.

(** [const roomId = socket.currentRoom; if (!roomId) return;] lets through
    a room id that is neither [null] nor the empty string. *)
Definition joinedRoom (sock : Socket) : option string :=
  match currentRoom sock with
  | Some r => if decide (r = "") then None else Some r
  | None => None
  end.

(** ** The handlers *)

Definition roomUserOf (sid : string) (sock : Socket) : RoomUser :=
  {| user_id := userId sock; user_username := username sock; socketId := sid |}.

(** [socket.on('join-room', async (roomId) => ...)] *)
Definition onJoinRoom (sid : string) (sock : Socket) (roomId : string)
    (st : State) : State * list Emission :=
  match Room st !! roomId with
  | None => (st, [socketEmit sid (error "Room not found")])
  | Some room =>
      let st1 := with_adapter (adapterJoin sid roomId) st in
      let st2 :=
        with_sockets
          <[sid := {| userId := userId sock; username := username sock;
                      currentRoom := Some roomId |}]> st1 in
      let users :=
        JsMap.set sid (roomUserOf sid sock) (default [] (roomUsers st2 !! roomId)) in
      let st3 := with_roomUsers <[roomId := users]> st2 in
      let st4 :=
        match roomMessages st3 !! roomId with
        | Some _ => st3
        | None => with_roomMessages <[roomId := []]> st3
        end in
      (st4,
       [ socketEmit sid
           (room_state (timerState room) (default [] (roomMessages st4 !! roomId))
              (JsMap.values users) (host room));
         socketTo st4 sid roomId (user_joined (roomUserOf sid sock));
         ioTo st4 roomId (users_update (JsMap.values users)) ])
  end.

(** [function handleLeaveRoom(socket, io)] *)
Definition handleLeaveRoom (sid : string) (sock : Socket)
    (st : State) : State * list Emission :=
  match joinedRoom sock with
  | None => (st, [])
  | Some roomId =>
      let '(st1, out) :=
        match roomUsers st !! roomId with
        | Some users =>
            let users' := JsMap.delete sid users in
            if decide (JsMap.size users' = 0%nat) then
              (with_roomMessages (delete roomId)
                 (with_roomUsers (delete roomId) st), [])
            else
              let st' := with_roomUsers <[roomId := users']> st in
              (st',
               [ ioTo st' roomId (user_left (roomUserOf sid sock));
                 ioTo st' roomId (users_update (JsMap.values users'));
                 ioTo st' roomId (video_user_left sid) ])
        | None => (st, [])
        end in
      let st2 := with_adapter (adapterLeave sid roomId) st1 in
      (with_sockets
         <[sid := {| userId := userId sock; username := username sock;
                     currentRoom := None |}]> st2,
       out)
  end.

(** The message object built by the send-message handler. *)
Definition newMessage (now : N) (sock : Socket) (content : JsString.t) : Message :=
  {| msg_id := toString now;
     msg_userId := userId sock;
     msg_username := username sock;
     content := JsString.trim content;
     timestamp := now |}.

(** [messages.push(message); if (messages.length > 100) messages.shift();] *)
Definition pushBounded (message : Message) (messages : list Message) : list Message :=
  let pushed := messages ++ [message] in
  if decide (100 < length pushed)%nat then tail pushed else pushed.

(** [socket.on('send-message', (data) => ...)] with [data = { content }] *)
Definition onSendMessage (now : N) (sid : string) (sock : Socket)
    (content : JsString.t) (st : State) : State * list Emission :=
  match joinedRoom sock with
  | None => (st, [])
  | Some roomId =>
      if JsString.truthy content then
        let message := newMessage now sock content in
        let st' :=
          match roomMessages st !! roomId with
          | Some messages =>
              with_roomMessages <[roomId := pushBounded message messages]> st
          | None => st
          end in
        (st', [ioTo st' roomId (receive_message message)])
      else (st, [])
  end.

(** [Room.findOneAndUpdate({ roomId }, updateData)]: the document with that
    room id, when there is one, gets the listed paths written. *)
Definition findOneAndUpdate (roomId : string) (u : TimerUpdate)
    (docs : gmap string RoomDoc) : gmap string RoomDoc :=
  alter (λ d, {| host := host d; timerState := applyUpdate u (timerState d) |})
    roomId docs.

Definition phaseDuration (b : bool) (ts : TimerState) : Z :=
  if b then breakDuration ts else workDuration ts.

(** The [switch (action)] of [handleTimerAction]: the update document and
    the state that is broadcast. *)
Definition timerAction (now : N) (action : Action) (ts : TimerState)
    : TimerUpdate * TimerState :=
  match action with
  | start =>
      ({| upd_isRunning := Some true; upd_timeRemaining := None;
          upd_isBreak := None; upd_startedAt := Some (Some now) |},
       {| isRunning := true; timeRemaining := timeRemaining ts;
          isBreak := isBreak ts; startedAt := Some now;
          workDuration := workDuration ts; breakDuration := breakDuration ts |})
  | pause =>
      ({| upd_isRunning := Some false; upd_timeRemaining := None;
          upd_isBreak := None; upd_startedAt := None |},
       {| isRunning := false; timeRemaining := timeRemaining ts;
          isBreak := isBreak ts; startedAt := startedAt ts;
          workDuration := workDuration ts; breakDuration := breakDuration ts |})
  | reset =>
      let duration := phaseDuration (isBreak ts) ts in
      ({| upd_isRunning := Some false; upd_timeRemaining := Some duration;
          upd_isBreak := None; upd_startedAt := Some None |},
       {| isRunning := false; timeRemaining := duration;
          isBreak := isBreak ts; startedAt := None;
          workDuration := workDuration ts; breakDuration := breakDuration ts |})
  | switch =>
      let isNowBreak := negb (isBreak ts) in
      let newDuration := phaseDuration isNowBreak ts in
      ({| upd_isRunning := Some false; upd_timeRemaining := Some newDuration;
          upd_isBreak := Some isNowBreak; upd_startedAt := Some None |},
       {| isRunning := false; timeRemaining := newDuration;
          isBreak := isNowBreak; startedAt := None;
          workDuration := workDuration ts; breakDuration := breakDuration ts |})
  end.

(** [async function handleTimerAction(socket, io, action)] *)
Definition handleTimerAction (now : N) (sid : string) (sock : Socket)
    (action : Action) (st : State) : State * list Emission :=
  match joinedRoom sock with
  | None => (st, [])
  | Some roomId =>
      match Room st !! roomId with
      | None => (st, [])
      | Some room =>
          if decide (host room ≠ userId sock) then
            (st, [socketEmit sid (error "Only the host can control the timer")])
          else
            let '(updateData, newState) := timerAction now action (timerState room) in
            let st' := with_Room (findOneAndUpdate roomId updateData) st in
            (st', [ioTo st' roomId (timer_sync (sync_state newState))])
      end
  end.

(** [socket.on('timer-tick', async (data) => ...)] *)
Definition onTimerTick (sid : string) (sock : Socket) (data : TickData)
    (st : State) : State * list Emission :=
  match joinedRoom sock with
  | None => (st, [])
  | Some roomId =>
      let st' :=
        with_Room
          (findOneAndUpdate roomId
             {| upd_isRunning := Some (data_isRunning data);
                upd_timeRemaining := Some (data_timeRemaining data);
                upd_isBreak := None; upd_startedAt := None |}) st in
      (st', [socketTo st' sid roomId (timer_sync (sync_tick data))])
  end.

(** [socket.on('video-ready', ...)] and [socket.on('video-leave', ...)] *)
Definition onVideoReady (sid : string) (sock : Socket)
    (st : State) : State * list Emission :=
  match joinedRoom sock with
  | None => (st, [])
  | Some roomId => (st, [socketTo st sid roomId (video_user_ready sid (username sock))])
  end.

Definition onVideoLeave (sid : string) (sock : Socket)
    (st : State) : State * list Emission :=
  match joinedRoom sock with
  | None => (st, [])
  | Some roomId => (st, [socketTo st sid roomId (video_user_left sid)])
  end.

(** The three point-to-point relays: [io.to(targetSocketId).emit(...)]. *)
Definition onVideoOffer (sid : string) (sock : Socket)
    (targetSocketId offer : string) (st : State) : State * list Emission :=
  (st, [ioTo st targetSocketId (fwd_video_offer sid (username sock) offer)]).

Definition onVideoAnswer (sid : string) (sock : Socket)
    (targetSocketId answer : string) (st : State) : State * list Emission :=
  (st, [ioTo st targetSocketId (fwd_video_answer sid answer)]).

Definition onVideoIceCandidate (sid : string) (sock : Socket)
    (targetSocketId candidate : string) (st : State) : State * list Emission :=
  (st, [ioTo st targetSocketId (fwd_video_ice_candidate sid candidate)]).

(** [socket.on('disconnect', ...)]: by the time the callback runs the
    transport has taken the socket out of every room; afterwards the socket
    is gone. *)
Definition onDisconnect (sid : string) (sock : Socket)
    (st : State) : State * list Emission :=
  let '(st1, out) := handleLeaveRoom sid sock (with_adapter (adapterLeaveAll sid) st) in
  (with_sockets (delete sid) st1, out).

(** Dispatch of one inbound event of the connection [sid], handled at clock
    reading [now]. An event of a socket that is not connected reaches no
    handler. *)
Definition handle (now : N) (sid : string) (ev : ClientEvent)
    (st : State) : State * list Emission :=
  match sockets st !! sid with
  | None => (st, [])
  | Some sock =>
      match ev with
      | join_room roomId => onJoinRoom sid sock roomId st
      | leave_room => handleLeaveRoom sid sock st
      | send_message content => onSendMessage now sid sock content st
      | timer_start => handleTimerAction now sid sock start st
      | timer_pause => handleTimerAction now sid sock pause st
      | timer_reset => handleTimerAction now sid sock reset st
      | timer_switch_mode => handleTimerAction now sid sock switch st
      | timer_tick data => onTimerTick sid sock data st
      | video_ready => onVideoReady sid sock st
      | video_offer target offer => onVideoOffer sid sock target offer st
      | video_answer target answer => onVideoAnswer sid sock target answer st
      | video_ice_candidate target candidate =>
          onVideoIceCandidate sid sock target candidate st
      | video_leave => onVideoLeave sid sock st
      | disconnect => onDisconnect sid sock st
      end
  end.

(** [io.on('connection', (socket) => ...)], reached once the authentication
    middleware has attached the decoded identity: the socket is registered
    with no current room and sits in the room named by its own id. *)
Definition onConnection (sid uid uname : string) (st : State) : State :=
  match sockets st !! sid with
  | Some _ => st
  | None =>
      with_adapter (adapterJoin sid sid)
        (with_sockets
           <[sid := {| userId := uid; username := uname; currentRoom := None |}]> st)
  end.

(** ** The host's countdown

    The state updater of [tick] in the [PomodoroTimer] component, with the
    events it sends to the server: once a second while the timer runs, the
    host's client reports the new [timeRemaining], and when that reaches 0
    it also asks for the mode switch. *)
Definition clientTick (isHost : bool) (prev : TimerState)
    : TimerState * list ClientEvent :=
  if negb (isRunning prev) || (timeRemaining prev <=? 0) then (prev, [])
  else
    let newTime := timeRemaining prev - 1 in
    let ticks :=
      if isHost then
        [timer_tick {| data_timeRemaining := newTime; data_isRunning := true;
                       data_isBreak := isBreak prev |}]
      else [] in
    if newTime <=? 0 then
      ({| isRunning := false; timeRemaining := 0; isBreak := isBreak prev;
          startedAt := startedAt prev; workDuration := workDuration prev;
          breakDuration := breakDuration prev |},
       ticks ++ (if isHost then [timer_switch_mode] else []))
    else
      ({| isRunning := isRunning prev; timeRemaining := newTime;
          isBreak := isBreak prev; startedAt := startedAt prev;
          workDuration := workDuration prev;
          breakDuration := breakDuration prev |},
       ticks).

(** ** Runs of the server *)

Inductive Input :=
| connection (sid uid uname : string)
| recv (sid : string) (ev : ClientEvent).

Definition step (now : N) (i : Input) (st : State) : State * list Emission :=
  match i with
  | connection sid uid uname => (onConnection sid uid uname st, [])
  | recv sid ev => handle now sid ev st
  end.

(** A run feeds timestamped inputs in order and collects the emissions. *)
Fixpoint run (tr : list (N * Input)) (st : State) : State * list Emission :=
  match tr with
  | [] => (st, [])
  | (now, i) :: tr' =>
      let '(st1, out1) := step now i st in
      let '(st2, out2) := run tr' st1 in
      (st2, out1 ++ out2)
  end.

(** States the server can be in: those reached from a fresh start by
    handling inputs, while the REST controllers, which share the collection,
    may write to it in between. *)
Inductive reachable : State → Prop :=
| reachable_initial docs : reachable (initial docs)
| reachable_step now i st : reachable st → reachable (step now i st).1
| reachable_store f st : reachable st → reachable (with_Room f st).

(** Number of entries the presence table holds for a room. *)
Definition participantCount (st : State) (roomId : string) : nat :=
  match roomUsers st !! roomId with
  | Some users => JsMap.size users
  | None => 0%nat
  end.

(** The chat history kept for a room. *)
Definition history (st : State) (roomId : string) : list Message :=
  default [] (roomMessages st !! roomId).

(** Every stored history has at most 100 entries. *)
Definition historiesBounded (st : State) : Prop :=
  map_Forall (λ _ messages, (length messages ≤ 100)%nat) (roomMessages st).

(** ** Concrete rooms and runs used as test inputs *)

Module Scenario.

(** Two durable rooms with the schema's default timer: [R1] hosted by
    alice, [R2] hosted by bob. *)
Definition docs : gmap string RoomDoc :=
  {[ "R1" := mkRoomDoc "alice" defaultTimerState;
     "R2" := mkRoomDoc "bob" defaultTimerState ]}.

(** Connection [A] (alice, the host) and connection [B] (bob) are both in
    room [R1]; connection [X] (carol) is connected and has joined nothing. *)
Definition joinedAB : State :=
  (run [ (1%N, connection "A" "alice" "Alice");
         (2%N, connection "B" "bob" "Bob");
         (3%N, connection "X" "carol" "Carol");
         (4%N, recv "A" (join_room "R1"));
         (5%N, recv "B" (join_room "R1")) ] (initial docs)).1.

(** The host has started the timer in [joinedAB]. *)
Definition running : State :=
  (handle 6%N "A" timer_start joinedAB).1.

(** A hundred chat messages from the host, handled at clock readings 10 to
    109, on top of [joinedAB]: the history of [R1] is full. *)
Definition chatter : list (N * Input) :=
  map (λ n, (N.of_nat n, recv "A" (send_message (JsString.lit "m"))))
    (seq 10 100).

Definition full : State := (run chatter joinedAB).1.

(** One connection joins [R1], then [R2], then drops. *)
Definition hopping : list (N * Input) :=
  [ (1%N, connection "C" "carol" "Carol");
    (2%N, recv "C" (join_room "R1"));
    (3%N, recv "C" (join_room "R2"));
    (4%N, recv "C" disconnect) ].

End Scenario.

(** ** Presence as the specification words it

    Per room, the connections that have joined it and have not since left
    or disconnected. A join counts when it comes from a live connection and
    names a room of the durable collection; a leave or a disconnect takes
    the connection out of every room. *)

Module Spec.

Record Presence := mkPresence {
  live : gset string;
  present : gmap string (gset string)
}.

Definition presenceStep (docs : gmap string RoomDoc) (i : Input)
    (p : Presence) : Presence :=
  match i with
  | connection sid _ _ => mkPresence ({[sid]} ∪ live p) (present p)
  | recv sid ev =>
      if decide (sid ∈ live p) then
        match ev with
        | join_room r =>
            if decide (r ∈ dom docs) then
              mkPresence (live p)
                (<[r := {[sid]} ∪ default ∅ (present p !! r)]> (present p))
            else p
        | leave_room =>
            mkPresence (live p) ((λ s, s ∖ {[sid]}) <$> present p)
        | disconnect =>
            mkPresence (live p ∖ {[sid]}) ((λ s, s ∖ {[sid]}) <$> present p)
        | _ => p
        end
      else p
  end.

Definition presenceFrom (docs : gmap string RoomDoc) (p : Presence)
    (tr : list (N * Input)) : Presence :=
  foldl (λ p ti, presenceStep docs ti.2 p) p tr.

Definition presenceAfter (docs : gmap string RoomDoc) (tr : list (N * Input))
    : Presence :=
  presenceFrom docs (mkPresence ∅ ∅) tr.

(** Joined minus left-or-disconnected, for one room. *)
Definition participantCount (docs : gmap string RoomDoc)
    (tr : list (N * Input)) (roomId : string) : nat :=
  size (default ∅ (present (presenceAfter docs tr) !! roomId)).

End Spec.

(** The socket ids the presence table lists for a room, in join order. *)
Definition presentIds (st : State) (roomId : string) : list string :=
  map fst (default [] (roomUsers st !! roomId)).




(** ** Auxiliary notions for the properties of the handlers *)

(** The room an event of a socket acts on: the room named by a join-room,
    the socket's current room for everything else. *)
Definition touchedRoom (sock : Socket) (ev : ClientEvent) : option string :=
  match ev with
  | join_room r => Some r
  | _ => joinedRoom sock
  end.

(** The last [n] entries of a list. *)
Definition lastN {A : Type} (n : nat) (l : list A) : list A :=
  drop (length l - n) l.

(** The chat events of one connection: each content with the clock reading
    at which it is handled. *)
Definition sends (sid : string) (cs : list (N * JsString.t)) : list (N * Input) :=
  map (λ nc, (nc.1, recv sid (send_message nc.2))) cs.

(** How Socket.io's rooms relate to the sockets: a socket with a current
    room sits in that room, and only live sockets sit in rooms. *)
Definition adapterInv (st : State) : Prop :=
  (∀ sid sock r,
     sockets st !! sid = Some sock → currentRoom sock = Some r →
     sid ∈ members (adapter st) r)
  ∧ (∀ r sid, sid ∈ members (adapter st) r → is_Some (sockets st !! sid)).

(** When no room of the collection is named like a socket, the Socket.io
    room named by a socket id holds that socket while it is connected and
    nothing else. *)
Definition ownRoomInv (docs : gmap string RoomDoc) (st : State) : Prop :=
  dom (Room st) = dom docs
  ∧ (∀ sid sock r,
       sockets st !! sid = Some sock → currentRoom sock = Some r → r ∈ dom docs)
  ∧ (∀ x y, x ∉ dom docs →
       y ∈ members (adapter st) x ↔ y = x ∧ is_Some (sockets st !! x)).

(** The event that [handleTimerAction] is wired to for each action, and a
    sequence of such commands from one connection. *)
Definition commandEvent (a : Action) : ClientEvent :=
  match a with
  | start => timer_start
  | pause => timer_pause
  | reset => timer_reset
  | switch => timer_switch_mode
  end.

Definition commands (sid : string) (acts : list (N * Action)) : list (N * Input) :=
  map (λ na, (na.1, recv sid (commandEvent na.2))) acts.

(** The events of one connection, each with the clock reading at which the
    server handles it. *)
Definition feed (sid : string) (tevs : list (N * ClientEvent)) : list (N * Input) :=
  map (λ te, (te.1, recv sid te.2)) tevs.

(** ** The client components

    The parts of the [PomodoroTimer] and [Chat] components that compute:
    the display format, the reaction to a timer-sync, the host's buttons
    and the chat form's submit handler. *)

Module Client.




(** The interval callback firing [n] times in a row. *)
Fixpoint countdown (isHost : bool) (n : nat) (ts : TimerState)
    : TimerState * list ClientEvent :=
  match n with
  | O => (ts, [])
  | S n' =>
      let '(ts1, out1) := clientTick isHost ts in
      let '(ts2, out2) := countdown isHost n' ts1 in
      (ts2, out1 ++ out2)
  end.

(** [{ ...prev, ...data }] for the two shapes a timer-sync carries. *)
Definition mergeSync (prev : TimerState) (data : SyncPayload) : TimerState :=
  match data with
  | sync_state newState => newState
  | sync_tick d =>
      {| isRunning := data_isRunning d; timeRemaining := data_timeRemaining d;
         isBreak := data_isBreak d; startedAt := startedAt prev;
         workDuration := workDuration prev;
         breakDuration := breakDuration prev |}
  end.

(** [handleTimerSync], on the component's state and [lastSyncRef]: a sync
    less than 500 ms after the last accepted one is skipped. *)
Definition handleTimerSync (now : Z) (data : SyncPayload)
    (view : TimerState * Z) : TimerState * Z :=
  let '(prev, lastSync) := view in
  if now - lastSync <? 500 then view else (mergeSync prev data, now).

(** The four buttons: nothing for a participant; for the host the event
    and the local update that does not wait for the server. *)
Definition handleStart (isHost : bool) (ts : TimerState)
    : TimerState * list ClientEvent :=
  if isHost then
    ({| isRunning := true; timeRemaining := timeRemaining ts;
        isBreak := isBreak ts; startedAt := startedAt ts;
        workDuration := workDuration ts; breakDuration := breakDuration ts |},
     [timer_start])
  else (ts, []).

Definition handlePause (isHost : bool) (ts : TimerState)
    : TimerState * list ClientEvent :=
  if isHost then
    ({| isRunning := false; timeRemaining := timeRemaining ts;
        isBreak := isBreak ts; startedAt := startedAt ts;
        workDuration := workDuration ts; breakDuration := breakDuration ts |},
     [timer_pause])
  else (ts, []).

Definition handleReset (isHost : bool) (ts : TimerState)
    : TimerState * list ClientEvent :=
  if isHost then
    let duration := if isBreak ts then breakDuration ts else workDuration ts in
    ({| isRunning := false; timeRemaining := duration;
        isBreak := isBreak ts; startedAt := startedAt ts;
        workDuration := workDuration ts; breakDuration := breakDuration ts |},
     [timer_reset])
  else (ts, []).

Definition handleSwitch (isHost : bool) (ts : TimerState)
    : TimerState * list ClientEvent :=
  if isHost then
    let newIsBreak := negb (isBreak ts) in
    let duration := if newIsBreak then breakDuration ts else workDuration ts in
    ({| isRunning := false; timeRemaining := duration;
        isBreak := newIsBreak; startedAt := startedAt ts;
        workDuration := workDuration ts; breakDuration := breakDuration ts |},
     [timer_switch_mode])
  else (ts, []).

Definition button (a : Action) : bool → TimerState → TimerState * list ClientEvent :=
  match a with
  | start => handleStart
  | pause => handlePause
  | reset => handleReset
  | switch => handleSwitch
  end.

(** [handleSubmit] of the chat form: the event it emits, if any. *)
Definition handleSubmit (input : JsString.t) : option ClientEvent :=
  if JsString.truthy (JsString.trim input)
  then Some (send_message (JsString.trim input))
  else None.

End Client.

(** ** Authentication

    The socket middleware of [initializeSocket] and the Express middleware
    [protect]. [jwt.verify] with the server's secret is a parameter
    ([verifyToken] returns [null] when it throws), and so is the lookup of
    a user by id. *)

Module Auth.

(** What the handlers read of a decoded token. *)
Record Decoded := mkDecoded {
  dec_id : string;
  dec_username : string
}.

(** [s.split(sep)] for a one-character separator: every separator ends a
    piece, empty pieces included; the result is never empty. *)
Fixpoint split (sep : ascii) (s : string) : list string :=
  match s with
  | EmptyString => [EmptyString]
  | String a s' =>
      if Ascii.eqb a sep then EmptyString :: split sep s'
      else
        match split sep s' with
        | w :: ws => String a w :: ws
        | [] => [String a EmptyString]
        end
  end.

(** [!s] for a string that may be missing. *)
Definition present (s : option string) : option string :=
  match s with
  | Some EmptyString => None
  | _ => s
  end.

Section Middleware.

Context {User : Type}.
Variable verifyToken : string → option Decoded.
Variable findById : string → option User.

(** [io.use((socket, next) => ...)]: the error passed to [next], or the
    identity attached to the socket. *)
Definition ioUse (token : option string) : string + (string * string) :=
  match present token with
  | None => inl "Authentication required"
  | Some t =>
      match verifyToken t with
      | None => inl "Invalid token"
      | Some decoded => inr (dec_id decoded, dec_username decoded)
      end
  end.

Inductive Outcome :=
| status401 (message : string)
| next (user : User).

(** [protect], given the Authorization header. *)
Definition protect (authorization : option string) : Outcome :=
  match present authorization with
  | None => status401 "Not authorized - No token provided"
  | Some authHeader =>
      if String.prefix "Bearer " authHeader then
        match split " " authHeader !! 1%nat with
        | None => status401 "Not authorized - Invalid token"
        | Some token =>
            match verifyToken token with
            | None => status401 "Not authorized - Invalid token"
            | Some decoded =>
                match findById (dec_id decoded) with
                | None => status401 "Not authorized - User not found"
                | Some user => next user
                end
            end
        end
      else status401 "Not authorized - No token provided"
  end.

End Middleware.

End Auth.

(** ** The Next.js middleware of the front end *)

Module Next.

Definition protectedRoutes : list string := ["/dashboard"; "/room"].

Definition authRoutes : list string := ["/auth/login"; "/auth/register"].

(** A redirect to a path of the same origin, with the [from] search
    parameter when it is set, or [NextResponse.next()]. *)
Inductive Response :=
| redirect (pathname : string) (from : option string)
| next.

Definition middleware (pathname : string) (token : option string) : Response :=
  let isProtectedRoute :=
    existsb (λ route, String.prefix route pathname) protectedRoutes in
  let isAuthRoute :=
    existsb (λ route, String.prefix route pathname) authRoutes in
  if isProtectedRoute && negb (bool_decide (is_Some (Auth.present token))) then
    redirect "/auth/login" (Some pathname)
  else if isAuthRoute && bool_decide (is_Some (Auth.present token)) then
    redirect "/dashboard" None
  else next.

End Next.

(** ** The REST controller [joinRoom] *)

Module Rest.

(** A [Room] document as the controllers see it. *)
Record RoomRecord := mkRoomRecord {
  name : string;
  host : string;
  participants : list string;
  timerState : TimerState
}.

Inductive Response :=
| status404
| status200 (room : RoomRecord).

(** [POST /api/rooms/:roomId/join] for the authenticated user [user]. *)
Definition joinRoom (user roomId : string) (rooms : gmap string RoomRecord)
    : gmap string RoomRecord * Response :=
  match rooms !! roomId with
  | None => (rooms, status404)
  | Some room =>
      if decide (user ∈ participants room) then (rooms, status200 room)
      else
        let room' :=
          {| name := name room; host := host room;
             participants := participants room ++ [user];
             timerState := timerState room |} in
        (<[roomId := room']> rooms, status200 room')
  end.

End Rest.

(** * Properties *)

(** ** Basic facts about the guards *)

Lemma joinedRoom_Some sock roomId :
  currentRoom sock = Some roomId → roomId ≠ "" → joinedRoom sock = Some roomId.
Proof.
  intros Hcur Hne. unfold joinedRoom. rewrite Hcur.
  destruct (decide (roomId = "")); congruence.
Qed.

Lemma joinedRoom_inv sock roomId :
  joinedRoom sock = Some roomId → currentRoom sock = Some roomId ∧ roomId ≠ "".
Proof.
  unfold joinedRoom. destruct (currentRoom sock) as [r|]; [|done].
  destruct (decide (r = "")); [done|]. intros [= <-]. done.
Qed.


Lemma findOneAndUpdate_lookup roomId u docs room :
  docs !! roomId = Some room →
  findOneAndUpdate roomId u docs !! roomId
  = Some {| host := host room; timerState := applyUpdate u (timerState room) |}.
Proof.
  intros Hroom. unfold findOneAndUpdate.
  by rewrite lookup_alter_eq, Hroom.
Qed.

Lemma findOneAndUpdate_lookup_ne roomId r u docs :
  r ≠ roomId → findOneAndUpdate roomId u docs !! r = docs !! r.
Proof. intros Hne. unfold findOneAndUpdate. by rewrite lookup_alter_ne. Qed.

(** ** Timer commands

    Throughout, a joined connection is a live socket whose [currentRoom]
    holds a room id; room ids are not empty, the schema requiring
    [roomId]. *)

Section TimerCommands.

Variables (now : N) (sid : string) (sock : Socket) (roomId : string)
  (room : RoomDoc) (st : State).
Hypothesis Hsock : sockets st !! sid = Some sock.
Hypothesis Hcur : currentRoom sock = Some roomId.
Hypothesis Hid : roomId ≠ "".
Hypothesis Hroom : Room st !! roomId = Some room.

Lemma handleTimerAction_host action :
  host room = userId sock →
  handleTimerAction now sid sock action st
  = (with_Room (findOneAndUpdate roomId (timerAction now action (timerState room)).1) st,
     [mkEmission (members (adapter st) roomId)
        (timer_sync (sync_state (timerAction now action (timerState room)).2))]).
Proof.
  intros Hhost. unfold handleTimerAction.
  rewrite (joinedRoom_Some _ _ Hcur Hid), Hroom.
  destruct (decide (host room ≠ userId sock)) as [Hne|_]; [done|].
  by destruct (timerAction now action (timerState room)).
Qed.

Lemma handleTimerAction_not_host action :
  host room ≠ userId sock →
  handleTimerAction now sid sock action st
  = (st, [mkEmission {[sid]} (error "Only the host can control the timer")]).
Proof.
  intros Hhost. unfold handleTimerAction.
  rewrite (joinedRoom_Some _ _ Hcur Hid), Hroom.
  by destruct (decide (host room ≠ userId sock)).
Qed.

(** C6. A timer-reset issued by the host of the room leaves the durable
    timer with [timeRemaining] equal to the duration of the current phase
    ([breakDuration] when [isBreak], [workDuration] otherwise), with
    [isRunning = false] and [startedAt = null], and with [isBreak] and the
    two configured durations as they were; that same state is what every
    socket of the room receives as [timer-sync]. *)
Theorem host_reset_restores_phase_duration :
  host room = userId sock →
  let ts := timerState room in
  let ts' :=
    {| isRunning := false;
       timeRemaining := if isBreak ts then breakDuration ts else workDuration ts;
       isBreak := isBreak ts;
       startedAt := None;
       workDuration := workDuration ts;
       breakDuration := breakDuration ts |} in
  Room (handle now sid timer_reset st).1 !! roomId
    = Some {| host := host room; timerState := ts' |}
  ∧ (handle now sid timer_reset st).2
    = [mkEmission (members (adapter st) roomId) (timer_sync (sync_state ts'))].
Proof.
  intros Hhost ts ts'. unfold handle. rewrite Hsock.
  rewrite (handleTimerAction_host reset Hhost). simpl.
  split; [|done].
  by rewrite (findOneAndUpdate_lookup _ _ _ _ Hroom).
Qed.

(** C3. A timer-start, timer-pause, timer-reset or timer-switch-mode sent
    by a joined connection whose user is not the host of its room leaves
    the whole server state (durable timer included) as it was and emits
    exactly one event: an [error], delivered to the requester alone. *)
Theorem non_host_command_rejected ev :
  host room ≠ userId sock →
  ev ∈ [timer_start; timer_pause; timer_reset; timer_switch_mode] →
  handle now sid ev st
  = (st, [mkEmission {[sid]} (error "Only the host can control the timer")]).
Proof.
  intros Hhost Hev. unfold handle. rewrite Hsock.
  repeat (apply elem_of_cons in Hev as [->|Hev];
          [by apply handleTimerAction_not_host|]).
  by apply elem_of_nil in Hev.
Qed.

End TimerCommands.

Lemma host_reset_restores_phase_duration_witness :
  Room (handle 9%N "A" timer_reset Scenario.running).1 !! "R1"
    = Some {| host := "alice"; timerState := defaultTimerState |}
  ∧ (handle 9%N "A" timer_reset Scenario.running).2
    = [mkEmission (members (adapter Scenario.running) "R1")
         (timer_sync (sync_state defaultTimerState))].
Proof.
  apply (host_reset_restores_phase_duration 9%N "A"
           (mkSocket "alice" "Alice" (Some "R1")) "R1"
           (mkRoomDoc "alice"
              (mkTimerState true 1500 false (Some 6%N) 1500 300))
           Scenario.running).
  - vm_compute. reflexivity.
  - reflexivity.
  - discriminate.
  - vm_compute. reflexivity.
  - reflexivity.
Defined.

Lemma non_host_command_rejected_witness :
  handle 9%N "B" timer_start Scenario.running
  = (Scenario.running,
     [mkEmission {["B"]} (error "Only the host can control the timer")]).
Proof.
  apply (non_host_command_rejected 9%N "B"
           (mkSocket "bob" "Bob" (Some "R1")) "R1"
           (mkRoomDoc "alice"
              (mkTimerState true 1500 false (Some 6%N) 1500 300))
           Scenario.running).
  - vm_compute. reflexivity.
  - reflexivity.
  - discriminate.
  - vm_compute. reflexivity.
  - discriminate.
  - apply list_elem_of_here.
Defined.

(** ** Timer ticks *)

Section TimerTick.

Variables (now : N) (sid : string) (sock : Socket) (roomId : string)
  (data : TickData) (st : State).
Hypothesis Hsock : sockets st !! sid = Some sock.
Hypothesis Hcur : currentRoom sock = Some roomId.
Hypothesis Hid : roomId ≠ "".

Lemma handle_tick :
  handle now sid (timer_tick data) st
  = (with_Room
       (findOneAndUpdate roomId
          {| upd_isRunning := Some (data_isRunning data);
             upd_timeRemaining := Some (data_timeRemaining data);
             upd_isBreak := None; upd_startedAt := None |}) st,
     [mkEmission (members (adapter st) roomId ∖ {[sid]})
        (timer_sync (sync_tick data))]).
Proof.
  unfold handle. rewrite Hsock. unfold onTimerTick.
  by rewrite (joinedRoom_Some _ _ Hcur Hid).
Qed.

(** C10. A timer-tick of a joined connection writes only the payload's
    [timeRemaining] and [isRunning] into the durable timer of its room:
    [isBreak], [startedAt], [workDuration] and [breakDuration] of that
    record, the host, and every other room's record stay as they were; the
    in-memory tables are untouched; and the payload, [isBreak] included,
    goes as [timer-sync] to the other sockets of the room. *)
Theorem tick_mirrors_time_and_running :
  let st' := (handle now sid (timer_tick data) st).1 in
  (∀ r, Room st' !! r =
        match Room st !! r with
        | Some d =>
            Some (if decide (r = roomId)
                  then {| host := host d;
                          timerState :=
                            {| isRunning := data_isRunning data;
                               timeRemaining := data_timeRemaining data;
                               isBreak := isBreak (timerState d);
                               startedAt := startedAt (timerState d);
                               workDuration := workDuration (timerState d);
                               breakDuration := breakDuration (timerState d) |} |}
                  else d)
        | None => None
        end)
  ∧ roomMessages st' = roomMessages st
  ∧ roomUsers st' = roomUsers st
  ∧ sockets st' = sockets st
  ∧ adapter st' = adapter st
  ∧ (handle now sid (timer_tick data) st).2
    = [mkEmission (members (adapter st) roomId ∖ {[sid]})
         (timer_sync (sync_tick data))].
Proof.
  rewrite handle_tick. simpl. repeat split.
  intros r. destruct (decide (r = roomId)) as [Heq|Hne].
  - rewrite Heq. unfold findOneAndUpdate. rewrite lookup_alter_eq.
    by destruct (Room st !! roomId).
  - rewrite (findOneAndUpdate_lookup_ne _ _ _ _ Hne).
    by destruct (Room st !! r).
Qed.

(** C1, as the code has it. A tick of the host that carries
    [timeRemaining = 0] stores that 0 together with the payload's
    [isRunning], as received, and leaves [isBreak] alone; the other sockets
    get the payload. The phase flips, [timeRemaining] becomes the new
    phase's duration and [isRunning] becomes false when the host's
    timer-switch-mode command is handled next, and that state goes to the
    whole room. The host's client sends exactly that pair, the tick with 0
    and then the switch, when its countdown goes from 1 to 0. *)
Theorem tick_to_zero_then_switch (now' : N) (room : RoomDoc) :
  Room st !! roomId = Some room →
  host room = userId sock →
  data_timeRemaining data = 0 →
  let ts := timerState room in
  let afterTick :=
    {| isRunning := data_isRunning data; timeRemaining := 0;
       isBreak := isBreak ts; startedAt := startedAt ts;
       workDuration := workDuration ts; breakDuration := breakDuration ts |} in
  let afterSwitch :=
    {| isRunning := false;
       timeRemaining :=
         if negb (isBreak ts) then breakDuration ts else workDuration ts;
       isBreak := negb (isBreak ts); startedAt := None;
       workDuration := workDuration ts; breakDuration := breakDuration ts |} in
  let r1 := handle now sid (timer_tick data) st in
  let r2 := handle now' sid timer_switch_mode r1.1 in
  Room r1.1 !! roomId = Some {| host := host room; timerState := afterTick |}
  ∧ r1.2 = [mkEmission (members (adapter st) roomId ∖ {[sid]})
              (timer_sync (sync_tick data))]
  ∧ Room r2.1 !! roomId = Some {| host := host room; timerState := afterSwitch |}
  ∧ r2.2 = [mkEmission (members (adapter st) roomId)
              (timer_sync (sync_state afterSwitch))]
  ∧ (∀ prev, isRunning prev = true → timeRemaining prev = 1 →
       (clientTick true prev).2
       = [timer_tick {| data_timeRemaining := 0; data_isRunning := true;
                        data_isBreak := isBreak prev |};
          timer_switch_mode]).
Proof.
  intros Hroom Hhost Hzero ts afterTick afterSwitch r1 r2.
  assert (Hclient : ∀ prev, isRunning prev = true → timeRemaining prev = 1 →
            (clientTick true prev).2
            = [timer_tick {| data_timeRemaining := 0; data_isRunning := true;
                             data_isBreak := isBreak prev |};
               timer_switch_mode]).
  { intros prev Hrun Hone. unfold clientTick. by rewrite Hrun, Hone. }
  assert (Hr1 : Room r1.1 !! roomId
                = Some {| host := host room; timerState := afterTick |}).
  { subst r1. rewrite handle_tick. simpl.
    rewrite (findOneAndUpdate_lookup _ _ _ _ Hroom). simpl.
    unfold applyUpdate, afterTick. simpl. by rewrite Hzero. }
  assert (Hs1 : sockets r1.1 !! sid = Some sock).
  { subst r1. by rewrite handle_tick. }
  assert (Ha1 : adapter r1.1 = adapter st).
  { subst r1. by rewrite handle_tick. }
  split; [exact Hr1|]. split; [subst r1; by rewrite handle_tick|].
  assert (Hr2 : r2 = handleTimerAction now' sid sock switch r1.1).
  { subst r2. unfold handle. by rewrite Hs1. }
  rewrite Hr2.
  rewrite (handleTimerAction_host now' sid sock roomId
             {| host := host room; timerState := afterTick |} r1.1
             Hcur Hid Hr1 switch Hhost).
  simpl. rewrite (findOneAndUpdate_lookup _ _ _ _ Hr1), Ha1. done.
Qed.

End TimerTick.

Lemma tick_mirrors_time_and_running_witness :
  timerState <$>
    Room (handle 7%N "A" (timer_tick (mkTickData 1499 true true))
            Scenario.running).1 !! "R1"
  = Some (mkTimerState true 1499 false (Some 6%N) 1500 300).
Proof.
  destruct (tick_mirrors_time_and_running 7%N "A"
              (mkSocket "alice" "Alice" (Some "R1")) "R1"
              (mkTickData 1499 true true) Scenario.running) as [Hdb _].
  - vm_compute. reflexivity.
  - reflexivity.
  - discriminate.
  - rewrite Hdb. vm_compute. reflexivity.
Defined.

Lemma tick_to_zero_then_switch_witness :
  timerState <$>
    Room (handle 8%N "A" timer_switch_mode
            (handle 7%N "A" (timer_tick (mkTickData 0 true false))
               Scenario.running).1).1 !! "R1"
  = Some (mkTimerState false 300 true None 1500 300).
Proof.
  destruct (tick_to_zero_then_switch 7%N "A"
              (mkSocket "alice" "Alice" (Some "R1")) "R1"
              (mkTickData 0 true false) Scenario.running) with
    (now' := 8%N)
    (room := mkRoomDoc "alice" (mkTimerState true 1500 false (Some 6%N) 1500 300))
    as (_ & _ & Hdb & _).
  - vm_compute. reflexivity.
  - reflexivity.
  - discriminate.
  - vm_compute. reflexivity.
  - reflexivity.
  - reflexivity.
  - rewrite Hdb. reflexivity.
Defined.

(** C1, as stated, fails. In room [R1] (work 1500 s, break 300 s, timer
    running in the work phase) the host's tick with [timeRemaining = 0] and
    [isRunning = true] leaves the durable timer running at 0 in the work
    phase, where the claim asks for a stopped timer at 300 in the break
    phase; and a tick carrying [-3] is stored as [-3], not clamped. *)
Lemma tick_to_zero_keeps_phase :
  timerState <$>
    Room (handle 7%N "A" (timer_tick (mkTickData 0 true false))
            Scenario.running).1 !! "R1"
  = Some (mkTimerState true 0 false (Some 6%N) 1500 300)
  ∧ timerState <$>
      Room (handle 7%N "A" (timer_tick (mkTickData (-3) true false))
              Scenario.running).1 !! "R1"
    = Some (mkTimerState true (-3) false (Some 6%N) 1500 300).
Proof. split; vm_compute; reflexivity. Qed.

(** C2, evaluated where it breaks. Connection [B] (bob, not the host of
    [R1]) sends a tick: the durable timer of [R1] takes the payload's
    [timeRemaining] and [isRunning], the host's socket [A] receives the
    payload as [timer-sync], and no [error] is emitted to [B]. *)
Theorem non_host_tick_is_applied :
  let r := handle 7%N "B" (timer_tick (mkTickData 7 false true))
             Scenario.running in
  timerState <$> Room Scenario.running !! "R1"
    = Some (mkTimerState true 1500 false (Some 6%N) 1500 300)
  ∧ timerState <$> Room r.1 !! "R1"
    = Some (mkTimerState false 7 false (Some 6%N) 1500 300)
  ∧ map (λ e, (elements (recipients e), event e)) r.2
    = [(["A"], timer_sync (sync_tick (mkTickData 7 false true)))].
Proof. repeat split; vm_compute; reflexivity. Qed.

(** ** Chat: the bounded history *)

Lemma pushBounded_length message messages :
  (length messages ≤ 100)%nat → (length (pushBounded message messages) ≤ 100)%nat.
Proof.
  intros Hlen. unfold pushBounded.
  destruct (decide (100 < length (messages ++ [message]))%nat) as [Hgt|Hle].
  - destruct messages as [|m0 rest]; simpl in *; [lia|].
    rewrite length_app. simpl. lia.
  - lia.
Qed.

Lemma pushBounded_full message first rest :
  length (first :: rest) = 100%nat →
  pushBounded message (first :: rest) = rest ++ [message].
Proof.
  intros Hlen. unfold pushBounded.
  rewrite decide_True; [done|].
  rewrite length_app. simpl in *. lia.
Qed.

Lemma pushBounded_room message messages :
  (length messages < 100)%nat →
  pushBounded message messages = messages ++ [message].
Proof.
  intros Hlen. unfold pushBounded.
  rewrite decide_False; [done|].
  rewrite length_app. simpl. lia.
Qed.

Lemma historiesBounded_initial docs : historiesBounded (initial docs).
Proof. unfold historiesBounded. simpl. apply map_Forall_empty. Qed.

Lemma onJoinRoom_bounded sid sock roomId st :
  historiesBounded st → historiesBounded (onJoinRoom sid sock roomId st).1.
Proof.
  unfold historiesBounded, onJoinRoom. intros Hb.
  destruct (Room st !! roomId); [|done]. simpl.
  destruct (roomMessages st !! roomId) eqn:Hm; simpl; [done|].
  apply map_Forall_insert_2; [simpl; lia | done].
Qed.

Lemma handleLeaveRoom_bounded sid sock st :
  historiesBounded st → historiesBounded (handleLeaveRoom sid sock st).1.
Proof.
  unfold historiesBounded, handleLeaveRoom. intros Hb.
  destruct (joinedRoom sock) as [roomId|]; [|done].
  destruct (roomUsers st !! roomId) as [users|]; [|done].
  destruct (decide (JsMap.size (JsMap.delete sid users) = 0%nat)); simpl; [|done].
  by apply map_Forall_delete.
Qed.

Lemma onSendMessage_bounded now sid sock c st :
  historiesBounded st → historiesBounded (onSendMessage now sid sock c st).1.
Proof.
  unfold historiesBounded, onSendMessage. intros Hb.
  destruct (joinedRoom sock) as [roomId|]; [|done].
  destruct (JsString.truthy c); [|done]. simpl.
  destruct (roomMessages st !! roomId) as [messages|] eqn:Hm; simpl; [|done].
  apply map_Forall_insert_2; [|done].
  apply pushBounded_length. by apply (Hb roomId).
Qed.

Lemma handleTimerAction_roomMessages now sid sock action st :
  roomMessages (handleTimerAction now sid sock action st).1 = roomMessages st.
Proof.
  unfold handleTimerAction.
  destruct (joinedRoom sock) as [roomId|]; [|done].
  destruct (Room st !! roomId) as [room|]; [|done].
  destruct (decide (host room ≠ userId sock)); [done|].
  by destruct (timerAction now action (timerState room)).
Qed.

Lemma handle_bounded now sid ev st :
  historiesBounded st → historiesBounded (handle now sid ev st).1.
Proof.
  intros Hb. unfold handle. destruct (sockets st !! sid) as [sock|]; [|done].
  destruct ev; simpl.
  - by apply onJoinRoom_bounded.
  - by apply handleLeaveRoom_bounded.
  - by apply onSendMessage_bounded.
  - unfold historiesBounded. by rewrite handleTimerAction_roomMessages.
  - unfold historiesBounded. by rewrite handleTimerAction_roomMessages.
  - unfold historiesBounded. by rewrite handleTimerAction_roomMessages.
  - unfold historiesBounded. by rewrite handleTimerAction_roomMessages.
  - unfold onTimerTick. by destruct (joinedRoom sock).
  - unfold onVideoReady. by destruct (joinedRoom sock).
  - done.
  - done.
  - done.
  - unfold onVideoLeave. by destruct (joinedRoom sock).
  - unfold onDisconnect.
    pose proof (handleLeaveRoom_bounded sid sock
                  (with_adapter (adapterLeaveAll sid) st) Hb) as Hl.
    by destruct (handleLeaveRoom sid sock (with_adapter (adapterLeaveAll sid) st)).
Qed.

Lemma step_bounded now i st :
  historiesBounded st → historiesBounded (step now i st).1.
Proof.
  intros Hb. destruct i as [sid uid uname|sid ev]; simpl.
  - unfold onConnection. by destruct (sockets st !! sid).
  - by apply handle_bounded.
Qed.

Lemma reachable_bounded st : reachable st → historiesBounded st.
Proof.
  induction 1 as [docs|now i st _ IH|f st _ IH].
  - apply historiesBounded_initial.
  - by apply step_bounded.
  - exact IH.
Qed.

Lemma reachable_run tr st : reachable st → reachable (run tr st).1.
Proof.
  revert st. induction tr as [|[now i] tr IH]; intros st Hst; [done|].
  simpl. pose proof (reachable_step now i st Hst) as H1.
  destruct (step now i st) as [st1 out1]. simpl in H1.
  specialize (IH st1 H1). by destruct (run tr st1).
Qed.

Lemma handle_send_message now sid sock roomId c st :
  sockets st !! sid = Some sock →
  currentRoom sock = Some roomId →
  roomId ≠ "" →
  c ≠ [] →
  handle now sid (send_message c) st
  = (match roomMessages st !! roomId with
     | Some messages =>
         with_roomMessages
           <[roomId := pushBounded (newMessage now sock c) messages]> st
     | None => st
     end,
     [mkEmission (members (adapter st) roomId)
        (receive_message (newMessage now sock c))]).
Proof.
  intros Hsock Hcur Hid Hc. unfold handle. rewrite Hsock.
  unfold onSendMessage. rewrite (joinedRoom_Some _ _ Hcur Hid).
  destruct c as [|c0 c']; [done|]. simpl.
  by destruct (roomMessages st !! roomId).
Qed.

(** C5. In every state the server can reach, the chat history of every room
    holds at most 100 messages; and a message appended to a history of
    exactly 100 leaves the former 2nd to 100th entries, in their order,
    followed by the new message: the oldest entry is the one dropped, and
    it no longer occurs in the history unless an equal entry was stored
    after it. *)
Theorem history_bounded_fifo :
  (∀ st roomId, reachable st → (length (history st roomId) ≤ 100)%nat)
  ∧ (∀ now sid sock roomId c st first rest,
       sockets st !! sid = Some sock →
       currentRoom sock = Some roomId →
       roomId ≠ "" →
       c ≠ [] →
       roomMessages st !! roomId = Some (first :: rest) →
       length (first :: rest) = 100%nat →
       let after := history (handle now sid (send_message c) st).1 roomId in
       after = rest ++ [newMessage now sock c]
       ∧ length after = 100%nat
       ∧ (first ∉ rest → first ≠ newMessage now sock c → first ∉ after)).
Proof.
  split.
  - intros st roomId Hst. unfold history.
    destruct (roomMessages st !! roomId) as [messages|] eqn:Hm; simpl; [|lia].
    by apply (reachable_bounded st Hst roomId).
  - intros now sid sock roomId c st first rest Hsock Hcur Hid Hc Hm Hlen after.
    assert (Hafter : after = rest ++ [newMessage now sock c]).
    { subst after.
      rewrite (handle_send_message _ _ _ _ _ _ Hsock Hcur Hid Hc), Hm.
      unfold history. simpl. rewrite lookup_insert_eq. simpl.
      by apply pushBounded_full. }
    rewrite Hafter. split; [done|]. split.
    + rewrite length_app. simpl in *. lia.
    + intros Hrest Hnew [Hin|Hin]%elem_of_app; [done|].
      by apply list_elem_of_singleton in Hin.
Qed.

Lemma history_bounded_fifo_witness :
  (length (history Scenario.full "R1") ≤ 100)%nat
  ∧ map msg_id
      (history (handle 200%N "B" (send_message (JsString.lit "late"))
                  Scenario.full).1 "R1")
    = map (λ n, toString (N.of_nat n)) (seq 11 99) ++ ["200"].
Proof.
  split.
  - apply (proj1 history_bounded_fifo).
    unfold Scenario.full, Scenario.joinedAB.
    apply reachable_run, reachable_run, reachable_initial.
  - destruct (proj2 history_bounded_fifo 200%N "B"
                (mkSocket "bob" "Bob" (Some "R1")) "R1"
                (JsString.lit "late") Scenario.full
                (newMessage 10%N (mkSocket "alice" "Alice" (Some "R1"))
                   (JsString.lit "m"))
                (tail (history Scenario.full "R1"))) as [Hafter _].
    + vm_compute. reflexivity.
    + reflexivity.
    + discriminate.
    + discriminate.
    + vm_compute. reflexivity.
    + vm_compute. reflexivity.
    + rewrite Hafter. vm_compute. reflexivity.
Defined.

(** ** Chat: what content is stored *)

Lemma trimStart_keeps s c :
  c ∈ s → JsString.isWhiteSpace c = false →
  ∃ c' s', JsString.trimStart s = c' :: s' ∧ JsString.isWhiteSpace c' = false
           ∧ c ∈ c' :: s'.
Proof.
  induction s as [|a s IH]; intros Hin Hc.
  - by apply elem_of_nil in Hin.
  - simpl. destruct (JsString.isWhiteSpace a) eqn:Ha.
    + apply elem_of_cons in Hin as [->|Hin]; [congruence|]. by apply IH.
    + by exists a, s.
Qed.

Lemma trimStart_head c s :
  JsString.isWhiteSpace c = false → JsString.trimStart (c :: s) = c :: s.
Proof. intros Hc. simpl. by rewrite Hc. Qed.

Lemma elem_of_rev (c : N) (l : list N) : c ∈ rev l ↔ c ∈ l.
Proof. rewrite !list_elem_of_In. symmetry. apply in_rev. Qed.

Lemma trim_nonempty s :
  (∃ c, c ∈ s ∧ JsString.isWhiteSpace c = false) → JsString.trim s ≠ [].
Proof.
  intros (c & Hin & Hc).
  destruct (trimStart_keeps s c Hin Hc) as (c1 & s1 & Hs & _ & Hin1).
  unfold JsString.trim, JsString.trimEnd. rewrite Hs.
  assert (Hrev : c ∈ rev (c1 :: s1)).
  { by apply elem_of_rev. }
  destruct (trimStart_keeps _ c Hrev Hc) as (c2 & s2 & Hs2 & _ & _).
  rewrite Hs2. simpl. intros Hnil. by apply app_eq_nil in Hnil as [_ ?].
Qed.

Lemma trim_without_whitespace s :
  (∀ c, c ∈ s → JsString.isWhiteSpace c = false) → JsString.trim s = s.
Proof.
  intros Hall. unfold JsString.trim, JsString.trimEnd.
  assert (Hstart : ∀ l : JsString.t,
            (∀ c, c ∈ l → JsString.isWhiteSpace c = false) →
            JsString.trimStart l = l).
  { intros [|a l] Hl; [done|]. apply trimStart_head, Hl, list_elem_of_here. }
  rewrite (Hstart s Hall), Hstart, rev_involutive; [done|].
  intros c Hc. by apply Hall, elem_of_rev.
Qed.

(** C7, as the code has it. For a joined connection: empty content is
    dropped, with no state change and no emission at all; content with at
    least one non-whitespace code unit is stored, and broadcast to the
    room, with its surrounding whitespace trimmed and nothing else cut, so
    the stored content is non-empty; and content free of whitespace is
    stored exactly as sent, whatever its length. *)
Theorem send_message_content_rule now sid sock roomId st :
  sockets st !! sid = Some sock →
  currentRoom sock = Some roomId →
  roomId ≠ "" →
  handle now sid (send_message []) st = (st, [])
  ∧ (∀ c, (∃ u, u ∈ c ∧ JsString.isWhiteSpace u = false) →
       let m := newMessage now sock c in
       let r := handle now sid (send_message c) st in
       content m = JsString.trim c
       ∧ content m ≠ []
       ∧ roomMessages r.1 !! roomId = pushBounded m <$> roomMessages st !! roomId
       ∧ r.2 = [mkEmission (members (adapter st) roomId) (receive_message m)])
  ∧ (∀ c, c ≠ [] → (∀ u, u ∈ c → JsString.isWhiteSpace u = false) →
       content (newMessage now sock c) = c
       ∧ length (content (newMessage now sock c)) = length c).
Proof.
  intros Hsock Hcur Hid. split; [|split].
  - unfold handle. rewrite Hsock. unfold onSendMessage.
    by rewrite (joinedRoom_Some _ _ Hcur Hid).
  - intros c Hc m r.
    assert (Hne : c ≠ []).
    { destruct Hc as (u & Hu & _). intros ->. by apply elem_of_nil in Hu. }
    subst r. rewrite (handle_send_message _ _ _ _ _ _ Hsock Hcur Hid Hne).
    split; [done|]. split; [by apply trim_nonempty|]. split; [|done].
    simpl. destruct (roomMessages st !! roomId) as [messages|] eqn:Hm; simpl.
    + by rewrite lookup_insert_eq.
    + done.
  - intros c _ Hall. simpl. by rewrite (trim_without_whitespace c Hall).
Qed.

Lemma send_message_content_rule_witness :
  map content
    (history (handle 7%N "A" (send_message (JsString.lit "  hi there "))
                Scenario.joinedAB).1 "R1")
  = [JsString.lit "hi there"].
Proof.
  destruct (send_message_content_rule 7%N "A"
              (mkSocket "alice" "Alice" (Some "R1")) "R1" Scenario.joinedAB)
    as (_ & Hstore & _).
  - vm_compute. reflexivity.
  - reflexivity.
  - discriminate.
  - destruct (Hstore (JsString.lit "  hi there ")) as (_ & _ & Hm & _).
    + exists 104%N. split; [|reflexivity].
      apply list_elem_of_further, list_elem_of_further, list_elem_of_here.
    + unfold history. rewrite Hm. vm_compute. reflexivity.
Defined.

(** C7, as stated, fails. Content made of three spaces is accepted: a
    message whose content is the empty string is stored and broadcast to
    the room. And content of 501 code units, one more than the client's
    input field lets through, is stored with all 501. *)
Lemma blank_and_long_content_stored :
  (let r := handle 7%N "A" (send_message (JsString.lit "   "))
              Scenario.joinedAB in
   map content (history r.1 "R1") = [[]]
   ∧ map (λ e, elements (recipients e)) r.2 = [["A"; "B"]])
  ∧ map (λ m, length (content m))
      (history (handle 7%N "A" (send_message (repeat 97%N 501))
                  Scenario.joinedAB).1 "R1")
    = [501%nat].
Proof. repeat split; vm_compute; reflexivity. Qed.

(** ** Chat: message ids *)

Lemma toNumber_toString n : toNumber (toString n) = Some n.
Proof.
  unfold toNumber, toString.
  rewrite NilZero.usu.
  - simpl. f_equal. apply DecimalN.Unsigned.of_to.
  - destruct n as [|p]; [discriminate|]. apply DecimalPos.Unsigned.to_uint_nonnil.
Qed.

Lemma toString_inj n1 n2 : toString n1 = toString n2 → n1 = n2.
Proof.
  intros Heq. apply (f_equal toNumber) in Heq.
  rewrite !toNumber_toString in Heq. congruence.
Qed.

(** C9, as the code has it. The id of a message is the decimal rendering of
    the clock reading at which its send-message event is handled. For two
    messages sent to a room one after the other, read back as numbers the
    ids are those two clock readings, so they are equal exactly when the
    two events were handled in the same millisecond, and the later id is
    the greater one exactly when the clock moved forward in between. *)
Theorem message_ids_follow_clock now1 now2 sid1 sid2 sock1 sock2 roomId c1 c2 st :
  sockets st !! sid1 = Some sock1 →
  sockets st !! sid2 = Some sock2 →
  currentRoom sock1 = Some roomId →
  currentRoom sock2 = Some roomId →
  roomId ≠ "" →
  c1 ≠ [] →
  c2 ≠ [] →
  let m1 := newMessage now1 sock1 c1 in
  let m2 := newMessage now2 sock2 c2 in
  let r1 := handle now1 sid1 (send_message c1) st in
  let r2 := handle now2 sid2 (send_message c2) r1.1 in
  r1.2 = [mkEmission (members (adapter st) roomId) (receive_message m1)]
  ∧ r2.2 = [mkEmission (members (adapter st) roomId) (receive_message m2)]
  ∧ roomMessages r2.1 !! roomId
    = (λ l, pushBounded m2 (pushBounded m1 l)) <$> roomMessages st !! roomId
  ∧ toNumber (msg_id m1) = Some now1
  ∧ toNumber (msg_id m2) = Some now2
  ∧ (msg_id m1 = msg_id m2 ↔ now1 = now2)
  ∧ (∀ n1 n2, toNumber (msg_id m1) = Some n1 → toNumber (msg_id m2) = Some n2 →
       ((n1 < n2)%N ↔ (now1 < now2)%N)).
Proof.
  intros Hs1 Hs2 Hc1 Hc2 Hid Hne1 Hne2 m1 m2 r1 r2.
  assert (Hr1 : r1 = (match roomMessages st !! roomId with
                      | Some messages =>
                          with_roomMessages <[roomId := pushBounded m1 messages]> st
                      | None => st
                      end,
                      [mkEmission (members (adapter st) roomId) (receive_message m1)])).
  { subst r1. by apply handle_send_message. }
  assert (Hs2' : sockets r1.1 !! sid2 = Some sock2).
  { rewrite Hr1. simpl. by destruct (roomMessages st !! roomId). }
  assert (Ha : adapter r1.1 = adapter st).
  { rewrite Hr1. simpl. by destruct (roomMessages st !! roomId). }
  assert (Hr2 : r2 = (match roomMessages r1.1 !! roomId with
                      | Some messages =>
                          with_roomMessages <[roomId := pushBounded m2 messages]> r1.1
                      | None => r1.1
                      end,
                      [mkEmission (members (adapter r1.1) roomId) (receive_message m2)])).
  { subst r2. by apply handle_send_message. }
  split; [by rewrite Hr1|]. split; [by rewrite Hr2, Ha|].
  split.
  { rewrite Hr2, Hr1. simpl.
    destruct (roomMessages st !! roomId) as [messages|] eqn:Hm; simpl.
    - rewrite lookup_insert_eq. simpl. by rewrite lookup_insert_eq.
    - by rewrite Hm. }
  simpl. rewrite !toNumber_toString. repeat split.
  - apply toString_inj.
  - by intros ->.
  - intros Hlt. congruence.
  - intros Hlt. congruence.
Qed.

Lemma message_ids_follow_clock_witness :
  map msg_id
    (history (handle 8%N "B" (send_message (JsString.lit "yo"))
                (handle 7%N "A" (send_message (JsString.lit "hi"))
                   Scenario.joinedAB).1).1 "R1")
  = ["7"; "8"]%string.
Proof.
  destruct (message_ids_follow_clock 7%N 8%N "A" "B"
              (mkSocket "alice" "Alice" (Some "R1"))
              (mkSocket "bob" "Bob" (Some "R1")) "R1"
              (JsString.lit "hi") (JsString.lit "yo") Scenario.joinedAB)
    as (_ & _ & Hm & _).
  - vm_compute. reflexivity.
  - vm_compute. reflexivity.
  - reflexivity.
  - reflexivity.
  - discriminate.
  - discriminate.
  - discriminate.
  - unfold history. rewrite Hm. vm_compute. reflexivity.
Defined.

(** C9, as stated, fails. Two different messages handled at the same clock
    reading, "hi" from [A] and "yo" from [B] at reading 7, are both stored
    under the id "7". *)
Lemma same_millisecond_same_id :
  map (λ m, (msg_id m, content m))
    (history (handle 7%N "B" (send_message (JsString.lit "yo"))
                (handle 7%N "A" (send_message (JsString.lit "hi"))
                   Scenario.joinedAB).1).1 "R1")
  = [("7"%string, JsString.lit "hi"); ("7"%string, JsString.lit "yo")].
Proof. vm_compute. reflexivity. Qed.

(** ** Events of a connection that has not joined *)



(** The three relays never look at [socket.currentRoom]: whatever the
    sender has or has not joined, the payload goes to the sockets of the
    room named [targetSocketId]. *)
Lemma relays_ignore_join_state now sid sock target payload st :
  sockets st !! sid = Some sock →
  handle now sid (video_offer target payload) st
  = (st, [mkEmission (members (adapter st) target)
            (fwd_video_offer sid (username sock) payload)])
  ∧ handle now sid (video_answer target payload) st
    = (st, [mkEmission (members (adapter st) target)
              (fwd_video_answer sid payload)])
  ∧ handle now sid (video_ice_candidate target payload) st
    = (st, [mkEmission (members (adapter st) target)
              (fwd_video_ice_candidate sid payload)]).
Proof. intros Hsock. unfold handle. by rewrite Hsock. Qed.

(** C4, evaluated where it breaks. Connection [X] is connected and has
    joined no room. Its video-offer, video-answer and video-ice-candidate
    naming [B] as target are each delivered to [B], tagged as coming from
    [X]. *)
Theorem unjoined_signaling_is_forwarded :
  currentRoom <$> sockets Scenario.joinedAB !! "X" = Some None
  ∧ map (λ e, (elements (recipients e), event e))
      (handle 7%N "X" (video_offer "B" "sdp-offer") Scenario.joinedAB).2
    = [(["B"], fwd_video_offer "X" "Carol" "sdp-offer")]
  ∧ map (λ e, (elements (recipients e), event e))
      (handle 7%N "X" (video_answer "B" "sdp-answer") Scenario.joinedAB).2
    = [(["B"], fwd_video_answer "X" "sdp-answer")]
  ∧ map (λ e, (elements (recipients e), event e))
      (handle 7%N "X" (video_ice_candidate "B" "candidate") Scenario.joinedAB).2
    = [(["B"], fwd_video_ice_candidate "X" "candidate")].
Proof. repeat split; vm_compute; reflexivity. Qed.

(** ** Presence *)

(** C8, evaluated where it breaks. One connection joins [R1], then joins
    [R2] without leaving, then disconnects. By the specification's count
    nobody is left in [R1]; the presence table still holds one entry for
    [R1], the connection that is gone, while [R2] is counted right. *)
Theorem stale_presence_after_room_hop :
  let final := (run Scenario.hopping (initial Scenario.docs)).1 in
  Spec.participantCount Scenario.docs Scenario.hopping "R1" = 0%nat
  ∧ participantCount final "R1" = 1%nat
  ∧ map fst (default [] (roomUsers final !! "R1")) = ["C"]
  ∧ sockets final !! "C" = None
  ∧ Spec.participantCount Scenario.docs Scenario.hopping "R2" = 0%nat
  ∧ participantCount final "R2" = 0%nat.
Proof. repeat split; vm_compute; reflexivity. Qed.

(** ** Presence on runs without room hops

    As long as no connection joins a room while it is in another one, the
    presence table and the specification's count agree. *)

Section JsMapFacts.
Context {V : Type}.
Implicit Types (m : list (string * V)) (k x : string) (v : V).



Lemma JsMap_delete_keys k m x :
  x ∈ map fst (JsMap.delete k m) ↔ x ≠ k ∧ x ∈ map fst m.
Proof.
  induction m as [|[k' v'] m IH]; simpl.
  - rewrite elem_of_nil. tauto.
  - destruct (decide (k' = k)) as [->|Hne]; simpl; rewrite ?elem_of_cons, IH.
    + split; [tauto|]. intros [Hx [->|Hin]]; [done|tauto].
    + split; [intros [->|[? ?]]; tauto|tauto].
Qed.


End JsMapFacts.


Lemma presentIds_delete st r r' :
  presentIds (with_roomUsers (delete r) st) r'
  = if decide (r = r') then [] else presentIds st r'.
Proof.
  unfold presentIds. simpl. destruct (decide (r = r')) as [->|Hne].
  - by rewrite lookup_delete_eq.
  - by rewrite lookup_delete_ne.
Qed.



Lemma removed_lookup (sid x r : string) (rooms : gmap string (gset string)) :
  x ∈ default ∅ (((λ s : gset string, s ∖ {[sid]}) <$> rooms) !! r)
  ↔ x ≠ sid ∧ x ∈ default ∅ (rooms !! r).
Proof.
  rewrite lookup_fmap. destruct (rooms !! r) as [s|]; simpl.
  - rewrite elem_of_difference, elem_of_singleton. tauto.
  - rewrite elem_of_empty. tauto.
Qed.









Lemma handleTimerAction_presence now sid sock action st :
  dom (Room (handleTimerAction now sid sock action st).1) = dom (Room st)
  ∧ roomUsers (handleTimerAction now sid sock action st).1 = roomUsers st
  ∧ sockets (handleTimerAction now sid sock action st).1 = sockets st.
Proof.
  unfold handleTimerAction.
  destruct (joinedRoom sock) as [roomId|]; [|done].
  destruct (Room st !! roomId) as [room|]; [|done].
  destruct (decide (host room ≠ userId sock)); [done|].
  destruct (timerAction now action (timerState room)) as [u newState]. simpl.
  split; [|done]. unfold findOneAndUpdate. apply dom_alter_L.
Qed.




(** * Further properties of the handlers *)

(** ** Joining and leaving *)

Section JsMapOrder.
Context {V : Type}.
Implicit Types (m : list (string * V)) (k : string) (v : V).

Lemma JsMap_set_fresh k v m :
  k ∉ map fst m → JsMap.set k v m = m ++ [(k, v)].
Proof.
  induction m as [|[k' v'] m IH]; simpl; intros Hk; [done|].
  apply not_elem_of_cons in Hk as [Hne Hk].
  rewrite decide_False by done. by rewrite IH.
Qed.

Lemma JsMap_set_present k v m :
  k ∈ map fst m → map fst (JsMap.set k v m) = map fst m.
Proof.
  induction m as [|[k' v'] m IH]; simpl; intros Hk.
  - by apply elem_of_nil in Hk.
  - destruct (decide (k' = k)) as [->|Hne]; [done|]. simpl. f_equal.
    apply IH. apply elem_of_cons in Hk as [?|?]; [congruence|done].
Qed.

Lemma JsMap_set_set k v m :
  JsMap.set k v (JsMap.set k v m) = JsMap.set k v m.
Proof.
  induction m as [|[k' v'] m IH]; simpl.
  - by rewrite decide_True.
  - destruct (decide (k' = k)) as [->|Hne]; simpl.
    + by rewrite decide_True.
    + rewrite decide_False by done. by rewrite IH.
Qed.

Lemma JsMap_set_value k v m : v ∈ JsMap.values (JsMap.set k v m).
Proof.
  unfold JsMap.values. induction m as [|[k' v'] m IH]; simpl.
  - apply list_elem_of_here.
  - destruct (decide (k' = k)); simpl.
    + apply list_elem_of_here.
    + by apply list_elem_of_further.
Qed.

End JsMapOrder.

Lemma members_adapterJoin sid r a r' :
  members (adapterJoin sid r a) r'
  = if decide (r = r') then {[sid]} ∪ members a r else members a r'.
Proof.
  unfold members, adapterJoin. destruct (decide (r = r')) as [<-|Hne].
  - by rewrite lookup_insert_eq.
  - by rewrite lookup_insert_ne.
Qed.

Lemma onJoinRoom_found sid sock roomId room st :
  Room st !! roomId = Some room →
  let users := JsMap.set sid (roomUserOf sid sock)
                 (default [] (roomUsers st !! roomId)) in
  onJoinRoom sid sock roomId st
  = (mkState (Room st)
       (match roomMessages st !! roomId with
        | Some _ => roomMessages st
        | None => <[roomId := []]> (roomMessages st)
        end)
       (<[roomId := users]> (roomUsers st))
       (<[sid := {| userId := userId sock; username := username sock;
                    currentRoom := Some roomId |}]> (sockets st))
       (adapterJoin sid roomId (adapter st)),
     [ mkEmission {[sid]}
         (room_state (timerState room) (history st roomId)
            (JsMap.values users) (host room));
       mkEmission (({[sid]} ∪ members (adapter st) roomId) ∖ {[sid]})
         (user_joined (roomUserOf sid sock));
       mkEmission ({[sid]} ∪ members (adapter st) roomId)
         (users_update (JsMap.values users)) ]).
Proof.
  intros Hroom users. unfold onJoinRoom. rewrite Hroom. simpl.
  unfold socketEmit, socketTo, ioTo, history.
  destruct (roomMessages st !! roomId) as [h|] eqn:Hh; simpl.
  - rewrite Hh, members_adapterJoin, decide_True by done. done.
  - rewrite lookup_insert_eq, members_adapterJoin, decide_True by done. done.
Qed.

(** X1. A join-room that names a room of the collection answers the joiner
    with the durable timer, the host, the history kept so far and the user
    list, in which the joiner appears; the others in the room are told who
    joined and everybody gets the new list. The joiner is appended to the
    presence list unless it was already there, in which case its place is
    kept; the history of the room and the collection are not changed; and
    the socket's current room is the one joined. *)
Theorem join_room_snapshot now sid sock roomId room st :
  sockets st !! sid = Some sock →
  Room st !! roomId = Some room →
  let r := handle now sid (join_room roomId) st in
  let users := JsMap.set sid (roomUserOf sid sock)
                 (default [] (roomUsers st !! roomId)) in
  r.2 = [ mkEmission {[sid]}
            (room_state (timerState room) (history st roomId)
               (JsMap.values users) (host room));
          mkEmission (({[sid]} ∪ members (adapter st) roomId) ∖ {[sid]})
            (user_joined (roomUserOf sid sock));
          mkEmission ({[sid]} ∪ members (adapter st) roomId)
            (users_update (JsMap.values users)) ]
  ∧ roomUserOf sid sock ∈ JsMap.values users
  ∧ presentIds r.1 roomId
    = (if decide (sid ∈ presentIds st roomId) then presentIds st roomId
       else presentIds st roomId ++ [sid])
  ∧ history r.1 roomId = history st roomId
  ∧ currentRoom <$> sockets r.1 !! sid = Some (Some roomId)
  ∧ Room r.1 = Room st.
Proof.
  intros Hsock Hroom r users. subst r. unfold handle. rewrite Hsock.
  rewrite (onJoinRoom_found _ _ _ _ _ Hroom). simpl.
  split; [done|]. split; [apply JsMap_set_value|]. split; [|split; [|split]].
  - unfold presentIds. simpl. rewrite lookup_insert_eq. simpl.
    fold (presentIds st roomId).
    destruct (decide (sid ∈ presentIds st roomId)) as [Hin|Hout].
    + by apply JsMap_set_present.
    + unfold presentIds in *. rewrite JsMap_set_fresh by done.
      by rewrite map_app.
  - unfold history. simpl.
    destruct (roomMessages st !! roomId) as [h|] eqn:Hh; simpl.
    + by rewrite Hh.
    + by rewrite lookup_insert_eq.
  - by rewrite lookup_insert_eq.
  - done.
Qed.

Lemma join_room_snapshot_witness :
  presentIds (handle 9%N "X" (join_room "R1") Scenario.joinedAB).1 "R1"
  = ["A"; "B"; "X"].
Proof.
  destruct (join_room_snapshot 9%N "X" (mkSocket "carol" "Carol" None) "R1"
              (mkRoomDoc "alice" defaultTimerState) Scenario.joinedAB)
    as (_ & _ & Hids & _).
  - vm_compute. reflexivity.
  - vm_compute. reflexivity.
  - rewrite Hids. vm_compute. reflexivity.
Defined.

Lemma State_eq st st' :
  Room st = Room st' →
  roomMessages st = roomMessages st' →
  roomUsers st = roomUsers st' →
  sockets st = sockets st' →
  adapter st = adapter st' →
  st = st'.
Proof. destruct st, st'. simpl. by intros -> -> -> -> ->. Qed.

(** X2. Joining is idempotent: a connection that sends join-room for the
    room it has just joined leaves the whole server state as it is after
    the first join. *)
Theorem rejoin_is_idempotent now now' sid sock roomId room st :
  sockets st !! sid = Some sock →
  Room st !! roomId = Some room →
  let st1 := (handle now sid (join_room roomId) st).1 in
  (handle now' sid (join_room roomId) st1).1 = st1.
Proof.
  intros Hsock Hroom st1.
  assert (Hst1 : st1
    = mkState (Room st)
        (match roomMessages st !! roomId with
         | Some _ => roomMessages st
         | None => <[roomId := []]> (roomMessages st)
         end)
        (<[roomId := JsMap.set sid (roomUserOf sid sock)
                       (default [] (roomUsers st !! roomId))]> (roomUsers st))
        (<[sid := {| userId := userId sock; username := username sock;
                     currentRoom := Some roomId |}]> (sockets st))
        (adapterJoin sid roomId (adapter st))).
  { subst st1. unfold handle. rewrite Hsock.
    by rewrite (onJoinRoom_found _ _ _ _ _ Hroom). }
  rewrite Hst1. unfold handle. simpl. rewrite lookup_insert_eq.
  rewrite onJoinRoom_found with (room := room) by done.
  apply State_eq; simpl.
  - done.
  - destruct (roomMessages st !! roomId) as [h|] eqn:Hh; simpl.
    + by rewrite Hh.
    + by rewrite lookup_insert_eq.
  - rewrite lookup_insert_eq. simpl. rewrite insert_insert_eq.
    unfold roomUserOf. simpl. by rewrite JsMap_set_set.
  - by rewrite insert_insert_eq.
  - assert (Hm : members (adapterJoin sid roomId (adapter st)) roomId
                 = {[sid]} ∪ members (adapter st) roomId).
    { by rewrite members_adapterJoin, decide_True. }
    unfold adapterJoin at 1. rewrite Hm. unfold adapterJoin.
    rewrite insert_insert_eq.
    replace ({[sid]} ∪ ({[sid]} ∪ members (adapter st) roomId))
      with ({[sid]} ∪ members (adapter st) roomId :> gset string); [done|].
    apply set_eq. intros x. rewrite !elem_of_union. tauto.
Qed.

Lemma rejoin_is_idempotent_witness :
  (handle 10%N "X" (join_room "R1")
     (handle 9%N "X" (join_room "R1") Scenario.joinedAB).1).1
  = (handle 9%N "X" (join_room "R1") Scenario.joinedAB).1.
Proof.
  apply (rejoin_is_idempotent 9%N 10%N "X" (mkSocket "carol" "Carol" None) "R1"
           (mkRoomDoc "alice" defaultTimerState) Scenario.joinedAB).
  - vm_compute. reflexivity.
  - vm_compute. reflexivity.
Defined.

Lemma JsMap_delete_absent {V : Type} (k : string) (m : list (string * V)) :
  k ∉ map fst (JsMap.delete k m).
Proof. rewrite JsMap_delete_keys. tauto. Qed.

(** X3. A leave-room of a joined connection clears the socket's current
    room and removes it from the presence list of that room. If nobody is
    left, the room's presence entry and its chat history are dropped and
    nothing is emitted; otherwise the history stays and the room is sent
    user-left, the list of those remaining (in join order) and
    video-user-left, in that order. *)
Theorem leave_room_outcome now sid sock roomId users st :
  sockets st !! sid = Some sock →
  currentRoom sock = Some roomId →
  roomId ≠ "" →
  roomUsers st !! roomId = Some users →
  let r := handle now sid leave_room st in
  let remaining := JsMap.delete sid users in
  (currentRoom <$> sockets r.1 !! sid) = Some None
  ∧ (sid ∉ presentIds r.1 roomId)
  ∧ (remaining = [] →
       roomUsers r.1 !! roomId = None
       ∧ roomMessages r.1 !! roomId = None
       ∧ history r.1 roomId = []
       ∧ r.2 = [])
  ∧ (remaining ≠ [] →
       roomUsers r.1 !! roomId = Some remaining
       ∧ history r.1 roomId = history st roomId
       ∧ r.2 = [ mkEmission (members (adapter st) roomId)
                   (user_left (roomUserOf sid sock));
                 mkEmission (members (adapter st) roomId)
                   (users_update (JsMap.values remaining));
                 mkEmission (members (adapter st) roomId)
                   (video_user_left sid) ]).
Proof.
  intros Hsock Hcur Hid Husers r remaining. subst r. unfold handle.
  rewrite Hsock. unfold handleLeaveRoom.
  rewrite (joinedRoom_Some _ _ Hcur Hid), Husers.
  fold remaining.
  destruct (decide (JsMap.size remaining = 0%nat)) as [Hz|Hnz]; simpl.
  - apply length_zero_iff_nil in Hz.
    split; [by rewrite lookup_insert_eq|]. split.
    { unfold presentIds. simpl. rewrite lookup_delete_eq. simpl.
      apply not_elem_of_nil. }
    split; [|by intros ?].
    intros _. unfold history. simpl. by rewrite !lookup_delete_eq.
  - assert (Hne : remaining ≠ []).
    { intros Heq. apply Hnz. by rewrite Heq. }
    split; [by rewrite lookup_insert_eq|]. split.
    { unfold presentIds. simpl. rewrite lookup_insert_eq. simpl.
      apply JsMap_delete_absent. }
    split; [by intros ?|].
    intros _. by rewrite lookup_insert_eq.
Qed.

Lemma leave_room_outcome_witness :
  map (λ e, elements (recipients e))
    (handle 9%N "B" leave_room Scenario.joinedAB).2
  = [["A"; "B"]; ["A"; "B"]; ["A"; "B"]]
  ∧ presentIds (handle 9%N "B" leave_room Scenario.joinedAB).1 "R1" = ["A"].
Proof.
  destruct (leave_room_outcome 9%N "B" (mkSocket "bob" "Bob" (Some "R1")) "R1"
              [("A", mkRoomUser "alice" "Alice" "A");
               ("B", mkRoomUser "bob" "Bob" "B")] Scenario.joinedAB)
    as (_ & _ & _ & Hrest).
  - vm_compute. reflexivity.
  - reflexivity.
  - discriminate.
  - vm_compute. reflexivity.
  - destruct Hrest as (Husers & _ & Hout); [discriminate|].
    split.
    + rewrite Hout. vm_compute. reflexivity.
    + unfold presentIds. rewrite Husers. reflexivity.
Defined.

(** ** Rooms do not interfere *)

Lemma handleTimerAction_frame now sid sock action st r' :
  joinedRoom sock ≠ Some r' →
  Room (handleTimerAction now sid sock action st).1 !! r' = Room st !! r'.
Proof.
  intros Hne. unfold handleTimerAction.
  destruct (joinedRoom sock) as [roomId|]; [|done].
  destruct (Room st !! roomId) as [room|]; [|done].
  destruct (decide (host room ≠ userId sock)); [done|].
  destruct (timerAction now action (timerState room)) as [u newState]. simpl.
  apply findOneAndUpdate_lookup_ne. congruence.
Qed.

Lemma handleLeaveRoom_frame sid sock st r' :
  joinedRoom sock ≠ Some r' →
  Room (handleLeaveRoom sid sock st).1 !! r' = Room st !! r'
  ∧ roomMessages (handleLeaveRoom sid sock st).1 !! r' = roomMessages st !! r'
  ∧ roomUsers (handleLeaveRoom sid sock st).1 !! r' = roomUsers st !! r'.
Proof.
  intros Hne. unfold handleLeaveRoom.
  destruct (joinedRoom sock) as [roomId|]; [|done].
  assert (roomId ≠ r') by congruence.
  destruct (roomUsers st !! roomId) as [users|]; [|done].
  destruct (decide (JsMap.size (JsMap.delete sid users) = 0%nat)); simpl.
  - by rewrite !lookup_delete_ne.
  - by rewrite lookup_insert_ne.
Qed.

(** X4. Whatever a connection sends, only the room the event acts on (the
    one named by a join-room, the socket's current room otherwise) can
    change: the durable record, the chat history and the presence entry of
    every other room are as before. *)
Theorem other_rooms_untouched now sid sock ev st r' :
  sockets st !! sid = Some sock →
  touchedRoom sock ev ≠ Some r' →
  let st' := (handle now sid ev st).1 in
  Room st' !! r' = Room st !! r'
  ∧ roomMessages st' !! r' = roomMessages st !! r'
  ∧ roomUsers st' !! r' = roomUsers st !! r'.
Proof.
  intros Hsock Hne st'. subst st'. unfold handle. rewrite Hsock.
  destruct ev as [r| |c| | | | |data| | | | | |]; simpl in Hne.
  - assert (r ≠ r') by congruence.
    unfold onJoinRoom. destruct (Room st !! r) as [room|]; [|done]. simpl.
    destruct (roomMessages st !! r) as [h|]; simpl;
      rewrite ?lookup_insert_ne by done; done.
  - by apply handleLeaveRoom_frame.
  - unfold onSendMessage. destruct (joinedRoom sock) as [roomId|]; [|done].
    assert (roomId ≠ r') by congruence.
    destruct (JsString.truthy c); [|done]. simpl.
    destruct (roomMessages st !! roomId) as [h|]; simpl; [|done].
    by rewrite lookup_insert_ne.
  - split; [by apply handleTimerAction_frame|].
    pose proof (handleTimerAction_roomMessages now sid sock start st) as ->.
    by destruct (handleTimerAction_presence now sid sock start st) as (_ & -> & _).
  - split; [by apply handleTimerAction_frame|].
    pose proof (handleTimerAction_roomMessages now sid sock pause st) as ->.
    by destruct (handleTimerAction_presence now sid sock pause st) as (_ & -> & _).
  - split; [by apply handleTimerAction_frame|].
    pose proof (handleTimerAction_roomMessages now sid sock reset st) as ->.
    by destruct (handleTimerAction_presence now sid sock reset st) as (_ & -> & _).
  - split; [by apply handleTimerAction_frame|].
    pose proof (handleTimerAction_roomMessages now sid sock switch st) as ->.
    by destruct (handleTimerAction_presence now sid sock switch st) as (_ & -> & _).
  - unfold onTimerTick. destruct (joinedRoom sock) as [roomId|]; [|done].
    simpl. split; [|done]. apply findOneAndUpdate_lookup_ne. congruence.
  - unfold onVideoReady. by destruct (joinedRoom sock).
  - done.
  - done.
  - done.
  - unfold onVideoLeave. by destruct (joinedRoom sock).
  - unfold onDisconnect.
    pose proof (handleLeaveRoom_frame sid sock
                  (with_adapter (adapterLeaveAll sid) st) r' Hne) as Hf.
    by destruct (handleLeaveRoom sid sock (with_adapter (adapterLeaveAll sid) st)).
Qed.

Lemma other_rooms_untouched_witness :
  Room (handle 9%N "A" timer_switch_mode Scenario.joinedAB).1 !! "R2"
  = Some (mkRoomDoc "bob" defaultTimerState).
Proof.
  destruct (other_rooms_untouched 9%N "A" (mkSocket "alice" "Alice" (Some "R1"))
              timer_switch_mode Scenario.joinedAB "R2") as (Hdb & _).
  - vm_compute. reflexivity.
  - discriminate.
  - rewrite Hdb. vm_compute. reflexivity.
Defined.

(** ** Who receives what *)

Lemma elem_members_adapterJoin x sid r a r' :
  x ∈ members (adapterJoin sid r a) r' ↔ (r = r' ∧ x = sid) ∨ x ∈ members a r'.
Proof.
  rewrite members_adapterJoin. destruct (decide (r = r')) as [<-|Hne].
  - rewrite elem_of_union, elem_of_singleton. tauto.
  - tauto.
Qed.

Lemma elem_members_adapterLeave x sid r a r' :
  x ∈ members (adapterLeave sid r a) r'
  ↔ x ∈ members a r' ∧ ¬ (r = r' ∧ x = sid).
Proof.
  unfold members, adapterLeave. destruct (decide (r = r')) as [<-|Hne].
  - rewrite lookup_alter_eq. destruct (a !! r) as [s|]; simpl.
    + rewrite elem_of_difference, elem_of_singleton. tauto.
    + rewrite elem_of_empty. tauto.
  - rewrite lookup_alter_ne by done. tauto.
Qed.

Lemma elem_members_adapterLeaveAll x sid a r' :
  x ∈ members (adapterLeaveAll sid a) r' ↔ x ∈ members a r' ∧ x ≠ sid.
Proof.
  unfold members, adapterLeaveAll. rewrite removed_lookup. tauto.
Qed.

Lemma handleLeaveRoom_sockets_adapter sid sock st :
  sockets (handleLeaveRoom sid sock st).1
  = match joinedRoom sock with
    | Some _ =>
        <[sid := {| userId := userId sock; username := username sock;
                    currentRoom := None |}]> (sockets st)
    | None => sockets st
    end
  ∧ adapter (handleLeaveRoom sid sock st).1
    = match joinedRoom sock with
      | Some roomId => adapterLeave sid roomId (adapter st)
      | None => adapter st
      end.
Proof.
  unfold handleLeaveRoom. destruct (joinedRoom sock) as [roomId|]; [|done].
  destruct (roomUsers st !! roomId) as [users|]; [|done].
  by destruct (decide (JsMap.size (JsMap.delete sid users) = 0%nat)).
Qed.

Lemma handleTimerAction_sockets_adapter now sid sock action st :
  sockets (handleTimerAction now sid sock action st).1 = sockets st
  ∧ adapter (handleTimerAction now sid sock action st).1 = adapter st.
Proof.
  unfold handleTimerAction.
  destruct (joinedRoom sock) as [roomId|]; [|done].
  destruct (Room st !! roomId) as [room|]; [|done].
  destruct (decide (host room ≠ userId sock)); [done|].
  by destruct (timerAction now action (timerState room)).
Qed.

Lemma onSendMessage_sockets_adapter now sid sock c st :
  sockets (onSendMessage now sid sock c st).1 = sockets st
  ∧ adapter (onSendMessage now sid sock c st).1 = adapter st.
Proof.
  unfold onSendMessage. destruct (joinedRoom sock) as [roomId|]; [|done].
  destruct (JsString.truthy c); [|done]. simpl.
  by destruct (roomMessages st !! roomId).
Qed.

Lemma adapterInv_ext st st' :
  sockets st' = sockets st → adapter st' = adapter st →
  adapterInv st → adapterInv st'.
Proof. unfold adapterInv. by intros -> ->. Qed.

Lemma adapterInv_leave sid sock st :
  adapterInv st → sockets st !! sid = Some sock →
  adapterInv (handleLeaveRoom sid sock st).1.
Proof.
  intros [Ha Hb] Hsock.
  destruct (handleLeaveRoom_sockets_adapter sid sock st) as [Hs Had].
  unfold adapterInv. rewrite Hs, Had.
  destruct (joinedRoom sock) as [roomId|]; [|done]. split.
  - intros x s r. rewrite elem_members_adapterLeave.
    destruct (decide (sid = x)) as [<-|Hx].
    + rewrite lookup_insert_eq. by intros [= <-].
    + rewrite lookup_insert_ne by done. intros Hl Hc. split; [by eapply Ha|].
      intros [_ ?]. congruence.
  - intros r x [Hin _]%elem_members_adapterLeave.
    destruct (decide (sid = x)) as [<-|Hx].
    + rewrite lookup_insert_eq. by eexists.
    + rewrite lookup_insert_ne by done. by eapply Hb.
Qed.

Lemma adapterInv_handle now sid ev st :
  adapterInv st → adapterInv (handle now sid ev st).1.
Proof.
  intros Hinv. unfold handle.
  destruct (sockets st !! sid) as [sock|] eqn:Hsock; [|done].
  destruct ev as [r| |c| | | | |data| | | | | |]; simpl; try done.
  - destruct Hinv as [Ha Hb]. unfold onJoinRoom.
    destruct (Room st !! r) as [room|]; [|done]. simpl.
    apply (adapterInv_ext
             (with_sockets
                <[sid := {| userId := userId sock; username := username sock;
                            currentRoom := Some r |}]>
                (with_adapter (adapterJoin sid r) st)));
      [by destruct (roomMessages st !! r)|by destruct (roomMessages st !! r)|].
    split; simpl.
    + intros x s r'. rewrite elem_members_adapterJoin.
      destruct (decide (sid = x)) as [<-|Hx].
      * rewrite lookup_insert_eq. intros [= <-] [= <-]. by left.
      * rewrite lookup_insert_ne by done. intros Hl Hc. right. by eapply Ha.
    + intros r' x [[_ ->]|Hin]%elem_members_adapterJoin.
      * rewrite lookup_insert_eq. by eexists.
      * destruct (decide (sid = x)) as [<-|Hx].
        -- rewrite lookup_insert_eq. by eexists.
        -- rewrite lookup_insert_ne by done. by eapply Hb.
  - by apply adapterInv_leave.
  - destruct (onSendMessage_sockets_adapter now sid sock c st) as [? ?].
    by apply (adapterInv_ext st).
  - destruct (handleTimerAction_sockets_adapter now sid sock start st) as [? ?].
    by apply (adapterInv_ext st).
  - destruct (handleTimerAction_sockets_adapter now sid sock pause st) as [? ?].
    by apply (adapterInv_ext st).
  - destruct (handleTimerAction_sockets_adapter now sid sock reset st) as [? ?].
    by apply (adapterInv_ext st).
  - destruct (handleTimerAction_sockets_adapter now sid sock switch st) as [? ?].
    by apply (adapterInv_ext st).
  - apply (adapterInv_ext st); [| |done]; unfold onTimerTick;
      by destruct (joinedRoom sock).
  - apply (adapterInv_ext st); [| |done]; unfold onVideoReady;
      by destruct (joinedRoom sock).
  - apply (adapterInv_ext st); [| |done]; unfold onVideoLeave;
      by destruct (joinedRoom sock).
  - destruct Hinv as [Ha Hb]. unfold onDisconnect.
    destruct (handleLeaveRoom_sockets_adapter sid sock
                (with_adapter (adapterLeaveAll sid) st)) as [Hs Had].
    destruct (handleLeaveRoom sid sock (with_adapter (adapterLeaveAll sid) st))
      as [st1 out]. simpl in *.
    assert (Hmem : ∀ x r', x ∈ members (adapter st1) r' →
                           x ∈ members (adapter st) r' ∧ x ≠ sid).
    { intros x r'. rewrite Had. destruct (joinedRoom sock) as [roomId|].
      - intros [Hin _]%elem_members_adapterLeave.
        by apply elem_members_adapterLeaveAll in Hin.
      - by intros Hin%elem_members_adapterLeaveAll. }
    assert (Hlook : ∀ x, x ≠ sid → sockets st1 !! x = sockets st !! x).
    { intros x Hx. rewrite Hs. destruct (joinedRoom sock); [|done].
      by rewrite lookup_insert_ne. }
    split; simpl.
    + intros x s r'. destruct (decide (sid = x)) as [<-|Hx].
      * by rewrite lookup_delete_eq.
      * rewrite lookup_delete_ne, Hlook by done. intros Hl Hc.
        rewrite Had. destruct (joinedRoom sock) as [roomId|].
        -- apply elem_members_adapterLeave. split; [|intros [_ ?]; congruence].
           apply elem_members_adapterLeaveAll. split; [by eapply Ha|congruence].
        -- apply elem_members_adapterLeaveAll. split; [by eapply Ha|congruence].
    + intros r' x [Hin Hx]%Hmem.
      rewrite lookup_delete_ne, Hlook by done. by eapply Hb.
Qed.

Lemma reachable_adapterInv st : reachable st → adapterInv st.
Proof.
  induction 1 as [docs|now i st _ IH|f st _ IH].
  - split; simpl.
    + intros sid sock r. by rewrite lookup_empty.
    + intros r sid. unfold members. rewrite lookup_empty. simpl.
      by intros ?%elem_of_empty.
  - destruct i as [sid uid uname|sid ev]; simpl; [|by apply adapterInv_handle].
    destruct IH as [Ha Hb]. unfold onConnection.
    destruct (sockets st !! sid) as [sock|] eqn:Hsock; [done|].
    split; simpl.
    + intros x s r. rewrite elem_members_adapterJoin.
      destruct (decide (sid = x)) as [<-|Hx].
      * rewrite lookup_insert_eq. by intros [= <-].
      * rewrite lookup_insert_ne by done. intros Hl Hc. right. by eapply Ha.
    + intros r x [[_ ->]|Hin]%elem_members_adapterJoin.
      * rewrite lookup_insert_eq. by eexists.
      * destruct (decide (sid = x)) as [<-|Hx].
        -- rewrite lookup_insert_eq. by eexists.
        -- rewrite lookup_insert_ne by done. by eapply Hb.
  - by apply (adapterInv_ext st).
Qed.

Lemma handleLeaveRoom_recipients sid sock st e x :
  e ∈ (handleLeaveRoom sid sock st).2 → x ∈ recipients e →
  ∃ r, x ∈ members (adapter st) r.
Proof.
  unfold handleLeaveRoom. destruct (joinedRoom sock) as [roomId|];
    [|by intros ?%elem_of_nil].
  destruct (roomUsers st !! roomId) as [users|]; [|by intros ?%elem_of_nil].
  destruct (decide (JsMap.size (JsMap.delete sid users) = 0%nat)); simpl;
    [by intros ?%elem_of_nil|].
  intros He Hx. exists roomId.
  repeat (apply elem_of_cons in He as [->|He]; [exact Hx|]).
  by apply elem_of_nil in He.
Qed.

Lemma handleTimerAction_recipients now sid sock action st e x :
  e ∈ (handleTimerAction now sid sock action st).2 → x ∈ recipients e →
  x = sid ∨ ∃ r, x ∈ members (adapter st) r.
Proof.
  unfold handleTimerAction. destruct (joinedRoom sock) as [roomId|];
    [|by intros ?%elem_of_nil].
  destruct (Room st !! roomId) as [room|]; [|by intros ?%elem_of_nil].
  destruct (decide (host room ≠ userId sock)); simpl.
  - intros ->%list_elem_of_singleton. simpl.
    intros ->%elem_of_singleton. by left.
  - destruct (timerAction now action (timerState room)) as [u newState]. simpl.
    intros ->%list_elem_of_singleton Hx. right. by exists roomId.
Qed.

(** X5. In every state the server can reach, whatever event a connection
    sends, each resulting emission is addressed to connected sockets only:
    nothing is ever sent to a socket that has disconnected. *)
Theorem emissions_reach_live_sockets now sid ev st e x :
  reachable st →
  e ∈ (handle now sid ev st).2 →
  x ∈ recipients e →
  is_Some (sockets st !! x).
Proof.
  intros [Ha Hb]%reachable_adapterInv. unfold handle.
  destruct (sockets st !! sid) as [sock|] eqn:Hsock; [|by intros ?%elem_of_nil].
  assert (Hcase : ∀ y, y = sid ∨ (∃ r, y ∈ members (adapter st) r) →
                       is_Some (sockets st !! y)).
  { intros y [->|[r Hr]]; [by eexists|by eapply Hb]. }
  intros He Hx. apply Hcase.
  destruct ev as [r| |c| | | | |data| | | | | |]; simpl in He.
  - destruct (Room st !! r) as [room|] eqn:Hroom;
      [|unfold onJoinRoom in He; rewrite Hroom in He].
    + rewrite (onJoinRoom_found _ _ _ _ _ Hroom) in He. simpl in He.
      assert (Hall : x ∈ ({[sid]} ∪ members (adapter st) r : gset string)).
      { apply elem_of_cons in He as [->|He].
        { simpl in Hx. apply elem_of_union. by left. }
        apply elem_of_cons in He as [->|He].
        { simpl in Hx. by apply elem_of_difference in Hx as [? _]. }
        apply list_elem_of_singleton in He as ->. exact Hx. }
      apply elem_of_union in Hall as [->%elem_of_singleton|?]; [by left|].
      right. by exists r.
    + apply list_elem_of_singleton in He as ->. simpl in Hx.
      apply elem_of_singleton in Hx as ->. by left.
  - right. by eapply handleLeaveRoom_recipients.
  - unfold onSendMessage in He. destruct (joinedRoom sock) as [roomId|];
      [|by apply elem_of_nil in He].
    destruct (JsString.truthy c); [|by apply elem_of_nil in He]. simpl in He.
    apply list_elem_of_singleton in He as ->. right. exists roomId.
    by destruct (roomMessages st !! roomId).
  - by eapply handleTimerAction_recipients.
  - by eapply handleTimerAction_recipients.
  - by eapply handleTimerAction_recipients.
  - by eapply handleTimerAction_recipients.
  - unfold onTimerTick in He. destruct (joinedRoom sock) as [roomId|];
      [|by apply elem_of_nil in He].
    apply list_elem_of_singleton in He as ->. simpl in Hx.
    apply elem_of_difference in Hx as [Hx _]. right. by exists roomId.
  - unfold onVideoReady in He. destruct (joinedRoom sock) as [roomId|];
      [|by apply elem_of_nil in He].
    apply list_elem_of_singleton in He as ->. simpl in Hx.
    apply elem_of_difference in Hx as [Hx _]. right. by exists roomId.
  - apply list_elem_of_singleton in He as ->. right. eexists. exact Hx.
  - apply list_elem_of_singleton in He as ->. right. eexists. exact Hx.
  - apply list_elem_of_singleton in He as ->. right. eexists. exact Hx.
  - unfold onVideoLeave in He. destruct (joinedRoom sock) as [roomId|];
      [|by apply elem_of_nil in He].
    apply list_elem_of_singleton in He as ->. simpl in Hx.
    apply elem_of_difference in Hx as [Hx _]. right. by exists roomId.
  - unfold onDisconnect in He.
    pose proof (handleLeaveRoom_recipients sid sock
                  (with_adapter (adapterLeaveAll sid) st) e x) as Hl.
    destruct (handleLeaveRoom sid sock (with_adapter (adapterLeaveAll sid) st))
      as [st1 out]. simpl in *.
    destruct (Hl He Hx) as [r [Hr _]%elem_members_adapterLeaveAll].
    right. by exists r.
Qed.

Lemma emissions_reach_live_sockets_witness :
  is_Some (sockets Scenario.running !! "B").
Proof.
  apply (emissions_reach_live_sockets 9%N "A" timer_pause Scenario.running
           (mkEmission (members (adapter Scenario.running) "R1")
              (timer_sync (sync_state
                 (mkTimerState false 1500 false (Some 6%N) 1500 300)))) "B").
  - unfold Scenario.running, Scenario.joinedAB.
    apply (reachable_step 6%N (recv "A" timer_start)).
    apply reachable_run, reachable_initial.
  - vm_compute. apply list_elem_of_here.
  - vm_compute. reflexivity.
Defined.

(** X6. In every reachable state, a chat message of a joined connection is
    delivered to every socket whose current room is that room, the sender
    included; a timer tick is delivered to every such socket except the
    sender. *)
Theorem chat_echoes_tick_does_not now sid sock roomId c data st :
  reachable st →
  sockets st !! sid = Some sock →
  currentRoom sock = Some roomId →
  roomId ≠ "" →
  c ≠ [] →
  (∃ e, (handle now sid (send_message c) st).2 = [e]
        ∧ event e = receive_message (newMessage now sock c)
        ∧ sid ∈ recipients e
        ∧ ∀ x s, sockets st !! x = Some s → currentRoom s = Some roomId →
                 x ∈ recipients e)
  ∧ (∃ e, (handle now sid (timer_tick data) st).2 = [e]
          ∧ event e = timer_sync (sync_tick data)
          ∧ (sid ∉ recipients e)
          ∧ ∀ x s, x ≠ sid → sockets st !! x = Some s →
                   currentRoom s = Some roomId → x ∈ recipients e).
Proof.
  intros [Ha Hb]%reachable_adapterInv Hsock Hcur Hid Hc. split.
  - rewrite (handle_send_message _ _ _ _ _ _ Hsock Hcur Hid Hc).
    eexists. split; [done|]. simpl. split; [done|].
    split; [by eapply Ha|]. intros x s Hx Hs. by eapply Ha.
  - rewrite (handle_tick now sid sock roomId data st Hsock Hcur Hid).
    eexists. split; [done|]. simpl. split; [done|]. split.
    + rewrite elem_of_difference, elem_of_singleton. tauto.
    + intros x s Hne Hx Hs. rewrite elem_of_difference, elem_of_singleton.
      split; [by eapply Ha|done].
Qed.

Lemma chat_echoes_tick_does_not_witness :
  map (λ e, elements (recipients e))
    (handle 9%N "A" (send_message (JsString.lit "hi")) Scenario.running).2
  = [["A"; "B"]]
  ∧ map (λ e, elements (recipients e))
      (handle 9%N "A" (timer_tick (mkTickData 1499 true false))
         Scenario.running).2
    = [["B"]].
Proof.
  destruct (chat_echoes_tick_does_not 9%N "A"
              (mkSocket "alice" "Alice" (Some "R1")) "R1" (JsString.lit "hi")
              (mkTickData 1499 true false) Scenario.running)
    as [(e1 & He1 & _) (e2 & He2 & _)].
  - unfold Scenario.running, Scenario.joinedAB.
    apply (reachable_step 6%N (recv "A" timer_start)).
    apply reachable_run, reachable_initial.
  - vm_compute. reflexivity.
  - reflexivity.
  - discriminate.
  - discriminate.
  - split; vm_compute; reflexivity.
Defined.

(** ** Point-to-point signaling *)

Lemma handleLeaveRoom_Room sid sock st :
  Room (handleLeaveRoom sid sock st).1 = Room st.
Proof.
  unfold handleLeaveRoom. destruct (joinedRoom sock) as [roomId|]; [|done].
  destruct (roomUsers st !! roomId) as [users|]; [|done].
  by destruct (decide (JsMap.size (JsMap.delete sid users) = 0%nat)).
Qed.

Lemma handle_dom_Room now sid ev st :
  dom (Room (handle now sid ev st).1) = dom (Room st).
Proof.
  unfold handle. destruct (sockets st !! sid) as [sock|]; [|done].
  destruct ev as [r| |c| | | | |data| | | | | |]; simpl; try done.
  - unfold onJoinRoom. destruct (Room st !! r); [|done]. simpl.
    by destruct (roomMessages st !! r).
  - by rewrite handleLeaveRoom_Room.
  - unfold onSendMessage. destruct (joinedRoom sock) as [roomId|]; [|done].
    destruct (JsString.truthy c); [|done]. simpl.
    by destruct (roomMessages st !! roomId).
  - by destruct (handleTimerAction_presence now sid sock start st) as [-> _].
  - by destruct (handleTimerAction_presence now sid sock pause st) as [-> _].
  - by destruct (handleTimerAction_presence now sid sock reset st) as [-> _].
  - by destruct (handleTimerAction_presence now sid sock switch st) as [-> _].
  - unfold onTimerTick. destruct (joinedRoom sock) as [roomId|]; [|done].
    simpl. unfold findOneAndUpdate. apply dom_alter_L.
  - unfold onVideoReady. by destruct (joinedRoom sock).
  - unfold onVideoLeave. by destruct (joinedRoom sock).
  - unfold onDisconnect.
    pose proof (handleLeaveRoom_Room sid sock
                  (with_adapter (adapterLeaveAll sid) st)) as Hr.
    destruct (handleLeaveRoom sid sock (with_adapter (adapterLeaveAll sid) st)).
    simpl in *. by rewrite Hr.
Qed.

Lemma ownRoomInv_ext docs st st' :
  dom (Room st') = dom (Room st) →
  sockets st' = sockets st → adapter st' = adapter st →
  ownRoomInv docs st → ownRoomInv docs st'.
Proof. unfold ownRoomInv. by intros -> -> ->. Qed.

Lemma ownRoomInv_leave docs sid sock st :
  ownRoomInv docs st → sockets st !! sid = Some sock →
  ownRoomInv docs (handleLeaveRoom sid sock st).1.
Proof.
  intros (Hd & Hr & Ho) Hsock.
  destruct (handleLeaveRoom_sockets_adapter sid sock st) as [Hs Had].
  unfold ownRoomInv. rewrite Hs, Had, handleLeaveRoom_Room.
  destruct (joinedRoom sock) as [roomId|] eqn:Hj; [|done].
  apply joinedRoom_inv in Hj as [Hcur _].
  assert (Hin : roomId ∈ dom docs) by by eapply Hr.
  split; [done|]. split.
  - intros x s r. destruct (decide (sid = x)) as [<-|Hx].
    + rewrite lookup_insert_eq. by intros [= <-].
    + rewrite lookup_insert_ne by done. apply Hr.
  - intros x y Hx. rewrite elem_members_adapterLeave, (Ho x y Hx).
    assert (roomId ≠ x) by congruence.
    destruct (decide (sid = x)) as [<-|Hne].
    + rewrite lookup_insert_eq, Hsock. split; [intros [[? _] _]|intros [? _]].
      * split; [done|by eexists].
      * split; [split; [done|by eexists]|tauto].
    + rewrite lookup_insert_ne by done. tauto.
Qed.

Lemma ownRoomInv_step docs now i st :
  ownRoomInv docs st → ownRoomInv docs (step now i st).1.
Proof.
  intros Hinv. pose proof Hinv as (Hd & Hr & Ho).
  destruct i as [sid uid uname|sid ev]; simpl.
  - unfold onConnection. destruct (sockets st !! sid) as [sock|] eqn:Hsock; [done|].
    split; [done|]. split; simpl.
    + intros x s r. destruct (decide (sid = x)) as [<-|Hx].
      * rewrite lookup_insert_eq. by intros [= <-].
      * rewrite lookup_insert_ne by done. apply Hr.
    + intros x y Hx. rewrite elem_members_adapterJoin, (Ho x y Hx).
      destruct (decide (sid = x)) as [<-|Hne].
      * rewrite lookup_insert_eq, Hsock. split.
        -- intros [[_ ->]|[_ [? ?]]]; [|done]. split; [done|by eexists].
        -- intros [-> _]. by left.
      * rewrite lookup_insert_ne by done. split; [|tauto].
        intros [[? _]|?]; [done|tauto].
  - unfold handle. destruct (sockets st !! sid) as [sock|] eqn:Hsock; [|done].
    destruct ev as [r| |c| | | | |data| | | | | |]; simpl; try done.
    + destruct (Room st !! r) as [room|] eqn:Hroom;
        [|unfold onJoinRoom; by rewrite Hroom].
      rewrite (onJoinRoom_found _ _ _ _ _ Hroom).
      assert (Hin : r ∈ dom docs).
      { rewrite <- Hd. apply elem_of_dom. by eexists. }
      split; [done|]. split; simpl.
      * intros x s r'. destruct (decide (sid = x)) as [<-|Hx].
        -- rewrite lookup_insert_eq. by intros [= <-] [= <-].
        -- rewrite lookup_insert_ne by done. apply Hr.
      * intros x y Hx. rewrite elem_members_adapterJoin, (Ho x y Hx).
        assert (r ≠ x) by congruence.
        destruct (decide (sid = x)) as [<-|Hne].
        -- rewrite lookup_insert_eq, Hsock.
           split; [intros [[? _]|[? _]]; [done|]|intros [? _]; right].
           ++ split; [done|by eexists].
           ++ split; [done|by eexists].
        -- rewrite lookup_insert_ne by done. split; [|tauto].
           intros [[? _]|?]; [done|tauto].
    + by apply ownRoomInv_leave.
    + destruct (onSendMessage_sockets_adapter now sid sock c st) as [? ?].
      apply (ownRoomInv_ext docs st); try done.
      pose proof (handle_dom_Room now sid (send_message c) st) as Hdom.
      unfold handle in Hdom. by rewrite Hsock in Hdom.
    + destruct (handleTimerAction_sockets_adapter now sid sock start st) as [? ?].
      destruct (handleTimerAction_presence now sid sock start st) as [? _].
      by apply (ownRoomInv_ext docs st).
    + destruct (handleTimerAction_sockets_adapter now sid sock pause st) as [? ?].
      destruct (handleTimerAction_presence now sid sock pause st) as [? _].
      by apply (ownRoomInv_ext docs st).
    + destruct (handleTimerAction_sockets_adapter now sid sock reset st) as [? ?].
      destruct (handleTimerAction_presence now sid sock reset st) as [? _].
      by apply (ownRoomInv_ext docs st).
    + destruct (handleTimerAction_sockets_adapter now sid sock switch st) as [? ?].
      destruct (handleTimerAction_presence now sid sock switch st) as [? _].
      by apply (ownRoomInv_ext docs st).
    + apply (ownRoomInv_ext docs st); [| | |done]; unfold onTimerTick;
        destruct (joinedRoom sock) as [roomId|]; try done.
      simpl. unfold findOneAndUpdate. apply dom_alter_L.
    + apply (ownRoomInv_ext docs st); [| | |done]; unfold onVideoReady;
        by destruct (joinedRoom sock).
    + apply (ownRoomInv_ext docs st); [| | |done]; unfold onVideoLeave;
        by destruct (joinedRoom sock).
    + unfold onDisconnect.
      assert (H0 : ownRoomInv docs (with_sockets (delete sid)
                     (handleLeaveRoom sid sock
                        (with_adapter (adapterLeaveAll sid) st)).1));
        [|by destruct (handleLeaveRoom sid sock
                         (with_adapter (adapterLeaveAll sid) st))].
      destruct (handleLeaveRoom_sockets_adapter sid sock
                  (with_adapter (adapterLeaveAll sid) st)) as [Hs Had].
      unfold ownRoomInv. simpl. rewrite Hs, Had, handleLeaveRoom_Room. simpl.
      split; [done|]. split.
      * intros x s r. destruct (decide (sid = x)) as [<-|Hx].
        -- by rewrite lookup_delete_eq.
        -- rewrite lookup_delete_ne by done.
           destruct (joinedRoom sock); [rewrite lookup_insert_ne by done|];
             apply Hr.
      * intros x y Hx.
        assert (Hmem : y ∈ members
                        match joinedRoom sock with
                        | Some roomId =>
                            adapterLeave sid roomId
                              (adapterLeaveAll sid (adapter st))
                        | None => adapterLeaveAll sid (adapter st)
                        end x
                      ↔ y ∈ members (adapter st) x ∧ y ≠ sid).
        { destruct (joinedRoom sock) as [roomId|].
          - rewrite elem_members_adapterLeave, elem_members_adapterLeaveAll.
            tauto.
          - apply elem_members_adapterLeaveAll. }
        rewrite Hmem, (Ho x y Hx).
        destruct (decide (sid = x)) as [<-|Hne].
        -- rewrite lookup_delete_eq. split; [tauto|by intros [_ [? ?]]].
        -- rewrite lookup_delete_ne by done.
           assert (Hsame : sockets st !! x
                           = match joinedRoom sock with
                             | Some _ =>
                                 <[sid := {| userId := userId sock;
                                             username := username sock;
                                             currentRoom := None |}]> (sockets st)
                             | None => sockets st
                             end !! x).
           { destruct (joinedRoom sock); [by rewrite lookup_insert_ne|done]. }
           rewrite <- Hsame. split; [tauto|]. intros [-> ?]. split; [done|congruence].
Qed.

Lemma ownRoomInv_run docs tr st :
  ownRoomInv docs st → ownRoomInv docs (run tr st).1.
Proof.
  revert st. induction tr as [|[now i] tr IH]; intros st Hinv; [done|].
  simpl. pose proof (ownRoomInv_step docs now i st Hinv) as Hnext.
  destruct (step now i st) as [st1 out1]. simpl in *.
  specialize (IH st1 Hnext). by destruct (run tr st1).
Qed.

Lemma ownRoomInv_initial docs : ownRoomInv docs (initial docs).
Proof.
  split; [done|]. split; simpl.
  - intros sid sock r. by rewrite lookup_empty.
  - intros x y _. unfold members. rewrite !lookup_empty. simpl.
    rewrite elem_of_empty. split; [done|]. by intros [_ [? ?]].
Qed.

(** X7. After any sequence of inputs to a freshly started server, a
    video-offer, video-answer or video-ice-candidate whose target is not
    the id of a room of the collection is delivered to the target socket
    alone when that socket is connected, and to nobody when it is not;
    the server state does not change. *)
Theorem signaling_reaches_only_target docs tr now sid sock target payload :
  let st := (run tr (initial docs)).1 in
  let dest : gset string :=
    if decide (is_Some (sockets st !! target)) then {[target]} else ∅ in
  sockets st !! sid = Some sock →
  target ∉ dom docs →
  handle now sid (video_offer target payload) st
  = (st, [mkEmission dest (fwd_video_offer sid (username sock) payload)])
  ∧ handle now sid (video_answer target payload) st
    = (st, [mkEmission dest (fwd_video_answer sid payload)])
  ∧ handle now sid (video_ice_candidate target payload) st
    = (st, [mkEmission dest (fwd_video_ice_candidate sid payload)]).
Proof.
  intros st dest Hsock Htarget.
  destruct (ownRoomInv_run docs tr _ (ownRoomInv_initial docs)) as (_ & _ & Ho).
  fold st in Ho.
  assert (Hdest : members (adapter st) target = dest).
  { apply set_eq. intros y. rewrite (Ho target y Htarget). subst dest.
    destruct (decide (is_Some (sockets st !! target))) as [Hl|Hl].
    - rewrite elem_of_singleton. tauto.
    - rewrite elem_of_empty. tauto. }
  destruct (relays_ignore_join_state now sid sock target payload st Hsock)
    as (-> & -> & ->).
  by rewrite Hdest.
Qed.

Lemma signaling_reaches_only_target_witness :
  (handle 9%N "A" (video_offer "B" "sdp") Scenario.joinedAB).2
  = [mkEmission {["B"]} (fwd_video_offer "A" "Alice" "sdp")].
Proof.
  destruct (signaling_reaches_only_target Scenario.docs
              [ (1%N, connection "A" "alice" "Alice");
                (2%N, connection "B" "bob" "Bob");
                (3%N, connection "X" "carol" "Carol");
                (4%N, recv "A" (join_room "R1"));
                (5%N, recv "B" (join_room "R1")) ]
              9%N "A" (mkSocket "alice" "Alice" (Some "R1")) "B" "sdp")
    as (Hoffer & _).
  - vm_compute. reflexivity.
  - vm_compute. intros H. discriminate H.
  - change (handle 9%N "A" (video_offer "B" "sdp") Scenario.joinedAB
            = (Scenario.joinedAB,
               [mkEmission
                  (if decide (is_Some (sockets Scenario.joinedAB !! "B"))
                   then {["B"]} else ∅)
                  (fwd_video_offer "A" "Alice" "sdp")])) in Hoffer.
    rewrite Hoffer. simpl. rewrite decide_True; [done|].
    vm_compute. by eexists.
Defined.

(** ** The chat history over many messages *)

Lemma pushBounded_lastN message messages :
  (length messages ≤ 100)%nat →
  pushBounded message messages = lastN 100 (messages ++ [message]).
Proof.
  intros Hlen. unfold pushBounded, lastN. rewrite length_app. simpl.
  destruct (decide (100 < length messages + 1)%nat) as [Hgt|Hle].
  - replace (length messages + 1 - 100)%nat with 1%nat by lia.
    by destruct messages.
  - replace (length messages + 1 - 100)%nat with 0%nat by lia. done.
Qed.

Lemma lastN_app_lastN {A : Type} (n : nat) (a b : list A) :
  lastN n (lastN n a ++ b) = lastN n (a ++ b).
Proof.
  unfold lastN. rewrite !length_app, length_drop.
  destruct (decide (length a ≤ n)%nat) as [Hle|Hgt].
  - replace (length a - n)%nat with 0%nat by lia. simpl.
    by replace (length a - 0)%nat with (length a) by lia.
  - replace (length a - (length a - n) + length b - n)%nat
      with (length b) by lia.
    replace (length a + length b - n)%nat
      with ((length a - n) + length b)%nat by lia.
    rewrite <- drop_drop. f_equal.
    rewrite drop_app_le by lia. done.
Qed.

(** X8. After any number of non-empty chat messages from a joined
    connection, the history of its room is the last 100 entries of the
    earlier history followed by the new messages in the order sent. *)
Theorem history_is_last_hundred sid sock roomId cs : ∀ st h,
  sockets st !! sid = Some sock →
  currentRoom sock = Some roomId →
  roomId ≠ "" →
  roomMessages st !! roomId = Some h →
  (length h ≤ 100)%nat →
  Forall (λ nc, nc.2 ≠ []) cs →
  history (run (sends sid cs) st).1 roomId
  = lastN 100 (h ++ map (λ nc, newMessage nc.1 sock nc.2) cs).
Proof.
  induction cs as [|[now c] cs IH]; intros st h Hsock Hcur Hid Hh Hlen Hcs.
  - simpl. unfold history. rewrite Hh. simpl. rewrite app_nil_r.
    unfold lastN. by replace (length h - 100)%nat with 0%nat by lia.
  - apply Forall_cons in Hcs as [Hc Hcs]. simpl in Hc.
    simpl. rewrite (handle_send_message _ _ _ _ _ _ Hsock Hcur Hid Hc), Hh.
    set (st1 := with_roomMessages
                  <[roomId := pushBounded (newMessage now sock c) h]> st).
    specialize (IH st1 (pushBounded (newMessage now sock c) h)).
    fold (sends sid cs).
    destruct (run (sends sid cs) st1) as [st2 out2] eqn:Hrun. simpl in *.
    rewrite IH; try done.
    + rewrite (pushBounded_lastN _ _ Hlen), lastN_app_lastN.
      by rewrite <- app_assoc.
    + by rewrite lookup_insert_eq.
    + by apply pushBounded_length.
Qed.

Lemma history_is_last_hundred_witness :
  map msg_id
    (history (run (sends "A" [(7%N, JsString.lit "a"); (8%N, JsString.lit "b")])
                Scenario.joinedAB).1 "R1")
  = ["7"; "8"]%string.
Proof.
  rewrite (history_is_last_hundred "A" (mkSocket "alice" "Alice" (Some "R1"))
             "R1" [(7%N, JsString.lit "a"); (8%N, JsString.lit "b")]
             Scenario.joinedAB []).
  - vm_compute. reflexivity.
  - vm_compute. reflexivity.
  - reflexivity.
  - discriminate.
  - vm_compute. reflexivity.
  - simpl. lia.
  - repeat constructor; discriminate.
Defined.

(** ** Timer commands of the host *)

Lemma applyUpdate_timerAction now action ts :
  applyUpdate (timerAction now action ts).1 ts = (timerAction now action ts).2.
Proof. by destruct action. Qed.

Lemma handle_host_command now sid sock roomId room st action :
  sockets st !! sid = Some sock →
  currentRoom sock = Some roomId →
  roomId ≠ "" →
  Room st !! roomId = Some room →
  host room = userId sock →
  handle now sid (commandEvent action) st
  = (with_Room (findOneAndUpdate roomId (timerAction now action (timerState room)).1) st,
     [mkEmission (members (adapter st) roomId)
        (timer_sync (sync_state (timerAction now action (timerState room)).2))]).
Proof.
  intros Hsock Hcur Hid Hroom Hhost. unfold handle. rewrite Hsock.
  destruct action; cbn [commandEvent]; by apply handleTimerAction_host.
Qed.



Lemma run_host_commands sid sock roomId acts : ∀ st room,
  sockets st !! sid = Some sock →
  currentRoom sock = Some roomId →
  roomId ≠ "" →
  Room st !! roomId = Some room →
  host room = userId sock →
  Room (run (commands sid acts) st).1 !! roomId
  = Some {| host := host room;
            timerState :=
              foldl (λ ts na, (timerAction na.1 na.2 ts).2) (timerState room) acts |}.
Proof.
  induction acts as [|[now a] acts IH]; intros st room Hsock Hcur Hid Hroom Hhost.
  - simpl. rewrite Hroom. by destruct room.
  - simpl.
    rewrite (handle_host_command _ _ _ _ _ _ _ Hsock Hcur Hid Hroom Hhost).
    set (st1 := with_Room
                  (findOneAndUpdate roomId (timerAction now a (timerState room)).1)
                  st).
    specialize (IH st1 {| host := host room;
                          timerState := (timerAction now a (timerState room)).2 |}).
    fold (commands sid acts).
    destruct (run (commands sid acts) st1) as [st2 out2]. simpl in *.
    apply IH; try done.
    by rewrite (findOneAndUpdate_lookup _ _ _ _ Hroom), applyUpdate_timerAction.
Qed.

(** X10. How the host's commands compose on the durable timer: switching
    the mode twice gives what one reset gives; a reset after a reset, or
    after a switch, changes nothing more; and a pause after a start leaves
    the remaining time and the phase as they were before the start, with
    the timer stopped and [startedAt] still holding the instant of the
    start. *)
Theorem timer_command_laws sid sock roomId room st t1 t2 t3 :
  sockets st !! sid = Some sock →
  currentRoom sock = Some roomId →
  roomId ≠ "" →
  Room st !! roomId = Some room →
  host room = userId sock →
  let after acts := timerState <$> Room (run (commands sid acts) st).1 !! roomId in
  let ts := timerState room in
  after [(t1, switch); (t2, switch)] = after [(t3, reset)]
  ∧ after [(t1, reset); (t2, reset)] = after [(t3, reset)]
  ∧ after [(t1, switch); (t2, reset)] = after [(t3, switch)]
  ∧ after [(t1, start); (t2, pause)]
    = Some {| isRunning := false; timeRemaining := timeRemaining ts;
              isBreak := isBreak ts; startedAt := Some t1;
              workDuration := workDuration ts;
              breakDuration := breakDuration ts |}.
Proof.
  intros Hsock Hcur Hid Hroom Hhost after ts. subst after. cbv beta.
  rewrite !(run_host_commands sid sock roomId _ st room Hsock Hcur Hid Hroom Hhost).
  simpl. unfold phaseDuration. simpl.
  repeat split; try done; by destruct (isBreak (timerState room)).
Qed.

Lemma timer_command_laws_witness :
  timerState <$>
    Room (run (commands "A" [(7%N, switch); (8%N, switch)]) Scenario.running).1
      !! "R1"
  = timerState <$>
      Room (run (commands "A" [(9%N, reset)]) Scenario.running).1 !! "R1".
Proof.
  destruct (timer_command_laws "A" (mkSocket "alice" "Alice" (Some "R1")) "R1"
              (mkRoomDoc "alice" (mkTimerState true 1500 false (Some 6%N) 1500 300))
              Scenario.running 7%N 8%N 9%N) as (Hlaw & _).
  - vm_compute. reflexivity.
  - reflexivity.
  - discriminate.
  - vm_compute. reflexivity.
  - reflexivity.
  - exact Hlaw.
Defined.

(** * Properties of the client components *)

(** ** The countdown *)

Lemma clientTick_stopped isHost ts :
  isRunning ts = false → clientTick isHost ts = (ts, []).
Proof. intros Hrun. unfold clientTick. by rewrite Hrun. Qed.

Lemma countdown_stopped isHost n ts :
  isRunning ts = false → Client.countdown isHost n ts = (ts, []).
Proof.
  intros Hrun. induction n as [|n IH]; [done|].
  simpl. by rewrite (clientTick_stopped _ _ Hrun), IH.
Qed.

Lemma rev_seq_S n : rev (seq 0 (S n)) = n :: rev (seq 0 n).
Proof. rewrite seq_S, rev_app_distr. done. Qed.

Lemma countdown_app isHost n m ts :
  Client.countdown isHost (n + m) ts
  = ((Client.countdown isHost m (Client.countdown isHost n ts).1).1,
     (Client.countdown isHost n ts).2
     ++ (Client.countdown isHost m (Client.countdown isHost n ts).1).2).
Proof.
  revert ts. induction n as [|n IH]; intros ts; simpl.
  - by destruct (Client.countdown isHost m ts).
  - destruct (clientTick isHost ts) as [ts1 out1]. rewrite IH.
    destruct (Client.countdown isHost n ts1) as [ts2 out2]. simpl.
    destruct (Client.countdown isHost m ts2) as [ts3 out3]. simpl.
    by rewrite app_assoc.
Qed.

Lemma countdown_S isHost n ts :
  Client.countdown isHost (S n) ts
  = ((Client.countdown isHost n (clientTick isHost ts).1).1,
     (clientTick isHost ts).2
     ++ (Client.countdown isHost n (clientTick isHost ts).1).2).
Proof.
  simpl. destruct (clientTick isHost ts) as [ts1 out1]. simpl.
  by destruct (Client.countdown isHost n ts1).
Qed.

Lemma countdown_exact isHost n ts :
  isRunning ts = true →
  timeRemaining ts = Z.of_nat n →
  (0 < n)%nat →
  Client.countdown isHost n ts
  = ({| isRunning := false; timeRemaining := 0; isBreak := isBreak ts;
        startedAt := startedAt ts; workDuration := workDuration ts;
        breakDuration := breakDuration ts |},
     if isHost then
       map (λ k, timer_tick {| data_timeRemaining := Z.of_nat k;
                               data_isRunning := true;
                               data_isBreak := isBreak ts |})
         (rev (seq 0 n))
       ++ [timer_switch_mode]
     else []).
Proof.
  revert ts. induction n as [|n IH]; intros ts Hrun Htime Hpos; [lia|].
  destruct n as [|n].
  - simpl. unfold clientTick. rewrite Hrun, Htime. simpl. by destruct isHost.
  - rewrite countdown_S.
    assert (Htick : clientTick isHost ts
              = ({| isRunning := isRunning ts; timeRemaining := Z.of_nat (S n);
                    isBreak := isBreak ts; startedAt := startedAt ts;
                    workDuration := workDuration ts;
                    breakDuration := breakDuration ts |},
                 if isHost then
                   [timer_tick {| data_timeRemaining := Z.of_nat (S n);
                                  data_isRunning := true;
                                  data_isBreak := isBreak ts |}]
                 else [])).
    { unfold clientTick. rewrite Hrun, Htime.
      replace (Z.of_nat (S (S n)) <=? 0) with false
        by (symmetry; apply Z.leb_gt; lia).
      replace (Z.of_nat (S (S n)) - 1) with (Z.of_nat (S n)) by lia.
      replace (Z.of_nat (S n) <=? 0) with false
        by (symmetry; apply Z.leb_gt; lia).
      done. }
    rewrite Htick. cbn [fst snd].
    rewrite IH by (simpl; try done; lia). cbn [fst snd isBreak startedAt
                                               workDuration breakDuration].
    rewrite (rev_seq_S (S n)). by destruct isHost.
Qed.

(** X11. A running countdown that shows [n > 0] seconds reaches 0 after
    [n] firings of the interval and stays there however often it fires
    again: the local timer ends stopped at 0 in the same phase. Over that
    time the host's client has sent one timer-tick per second, with
    [isRunning = true] and the remaining times [n-1] down to 0, and then
    one timer-switch-mode; a participant's client has sent nothing. *)
Theorem countdown_reaches_zero isHost n more ts :
  isRunning ts = true →
  timeRemaining ts = Z.of_nat n →
  (0 < n)%nat →
  Client.countdown isHost (n + more) ts
  = ({| isRunning := false; timeRemaining := 0; isBreak := isBreak ts;
        startedAt := startedAt ts; workDuration := workDuration ts;
        breakDuration := breakDuration ts |},
     if isHost then
       map (λ k, timer_tick {| data_timeRemaining := Z.of_nat k;
                               data_isRunning := true;
                               data_isBreak := isBreak ts |})
         (rev (seq 0 n))
       ++ [timer_switch_mode]
     else []).
Proof.
  intros Hrun Htime Hpos.
  rewrite countdown_app, (countdown_exact isHost n ts Hrun Htime Hpos).
  cbn [fst snd]. rewrite countdown_stopped by done.
  cbn [fst snd]. by rewrite app_nil_r.
Qed.

Lemma countdown_reaches_zero_witness :
  (Client.countdown true 5 (mkTimerState true 3 false None 1500 300)).2
  = [ timer_tick (mkTickData 2 true false);
      timer_tick (mkTickData 1 true false);
      timer_tick (mkTickData 0 true false);
      timer_switch_mode ].
Proof.
  change 5%nat with (3 + 2)%nat.
  rewrite (countdown_reaches_zero true 3 2
             (mkTimerState true 3 false None 1500 300));
    [reflexivity|reflexivity|reflexivity|lia].
Defined.

Lemma run_app tr1 tr2 st :
  run (tr1 ++ tr2) st
  = ((run tr2 (run tr1 st).1).1, (run tr1 st).2 ++ (run tr2 (run tr1 st).1).2).
Proof.
  revert st. induction tr1 as [|[now i] tr1 IH]; intros st; simpl.
  - by destruct (run tr2 st).
  - destruct (step now i st) as [st1 out1]. rewrite IH.
    destruct (run tr1 st1) as [st2 out2]. simpl.
    destruct (run tr2 st2) as [st3 out3]. simpl. by rewrite app_assoc.
Qed.

Lemma run_feed_single sid now ev st :
  run (feed sid [(now, ev)]) st = handle now sid ev st.
Proof.
  simpl. destruct (handle now sid ev st) as [st1 out1]. by rewrite app_nil_r.
Qed.

Lemma run_ticks sid sock roomId tevs : ∀ st room,
  sockets st !! sid = Some sock →
  currentRoom sock = Some roomId →
  roomId ≠ "" →
  Room st !! roomId = Some room →
  Forall (λ te, ∃ d, te.2 = timer_tick d) tevs →
  let st' := (run (feed sid tevs) st).1 in
  sockets st' = sockets st
  ∧ adapter st' = adapter st
  ∧ ∃ ts', Room st' !! roomId = Some {| host := host room; timerState := ts' |}
           ∧ isBreak ts' = isBreak (timerState room)
           ∧ workDuration ts' = workDuration (timerState room)
           ∧ breakDuration ts' = breakDuration (timerState room).
Proof.
  induction tevs as [|[now ev] tevs IH]; intros st room Hsock Hcur Hid Hroom Hall.
  - simpl. split; [done|]. split; [done|]. exists (timerState room).
    rewrite Hroom. by destruct room.
  - apply Forall_cons in Hall as [[d Hd] Hall]. simpl in Hd. subst ev.
    simpl. rewrite (handle_tick now sid sock roomId d st Hsock Hcur Hid).
    set (st1 := with_Room _ st).
    specialize (IH st1 {| host := host room;
                          timerState := applyUpdate
                            {| upd_isRunning := Some (data_isRunning d);
                               upd_timeRemaining := Some (data_timeRemaining d);
                               upd_isBreak := None; upd_startedAt := None |}
                            (timerState room) |}).
    fold (feed sid tevs).
    destruct (run (feed sid tevs) st1) as [st2 out2]. simpl in *.
    apply IH; try done.
    unfold st1. simpl. by apply findOneAndUpdate_lookup.
Qed.

(** X12. When the host's countdown runs from [n > 0] to 0 and the server
    handles the events the host's client sent on the way, in order and at
    whatever clock readings, the durable timer of the room ends in the
    other phase, stopped, with the full duration of that phase remaining
    and [startedAt] cleared. *)
Theorem host_countdown_flips_phase sid sock roomId room st n localTs tevs :
  sockets st !! sid = Some sock →
  currentRoom sock = Some roomId →
  roomId ≠ "" →
  Room st !! roomId = Some room →
  host room = userId sock →
  isRunning localTs = true →
  timeRemaining localTs = Z.of_nat n →
  (0 < n)%nat →
  map snd tevs = (Client.countdown true n localTs).2 →
  let ts := timerState room in
  Room (run (feed sid tevs) st).1 !! roomId
  = Some {| host := host room;
            timerState :=
              {| isRunning := false;
                 timeRemaining :=
                   if negb (isBreak ts) then breakDuration ts else workDuration ts;
                 isBreak := negb (isBreak ts);
                 startedAt := None;
                 workDuration := workDuration ts;
                 breakDuration := breakDuration ts |} |}.
Proof.
  intros Hsock Hcur Hid Hroom Hhost Hrun Htime Hpos Hevs ts.
  rewrite (countdown_exact true n localTs Hrun Htime Hpos) in Hevs.
  simpl in Hevs.
  apply map_eq_app in Hevs as (ticks & last & -> & Hticks & Hlast).
  destruct last as [|[now ev] [|]]; try discriminate. simpl in Hlast.
  injection Hlast as ->.
  assert (Hall : Forall (λ te, ∃ d, te.2 = timer_tick d) ticks).
  { clear -Hticks. revert Hticks. generalize (rev (seq 0 n)) as ks.
    induction ticks as [|[t e] ticks IH]; intros ks Hks; [constructor|].
    destruct ks as [|k ks]; [discriminate|]. simpl in Hks.
    injection Hks as -> Hks. constructor; [by eexists|by eapply IH]. }
  unfold feed. rewrite map_app. fold (feed sid ticks).
  fold (feed sid [(now, timer_switch_mode)]).
  rewrite run_app, run_feed_single. cbn [fst].
  change timer_switch_mode with (commandEvent switch).
  destruct (run_ticks sid sock roomId ticks st room Hsock Hcur Hid Hroom Hall)
    as (Hs & Ha & ts' & Hdb & Hb & Hw & Hbr).
  assert (Hsock' : sockets (run (feed sid ticks) st).1 !! sid = Some sock)
    by by rewrite Hs.
  rewrite (handle_host_command now sid sock roomId _ _ switch
             Hsock' Hcur Hid Hdb Hhost). simpl.
  rewrite (findOneAndUpdate_lookup _ _ _ _ Hdb). simpl.
  unfold applyUpdate, phaseDuration. simpl. subst ts.
  by rewrite Hb, Hw, Hbr.
Qed.

Lemma host_countdown_flips_phase_witness :
  timerState <$>
    Room (run (feed "A" [ (7%N, timer_tick (mkTickData 1 true false));
                          (8%N, timer_tick (mkTickData 0 true false));
                          (8%N, timer_switch_mode) ]) Scenario.running).1 !! "R1"
  = Some (mkTimerState false 300 true None 1500 300).
Proof.
  rewrite (host_countdown_flips_phase "A" (mkSocket "alice" "Alice" (Some "R1"))
             "R1" (mkRoomDoc "alice" (mkTimerState true 1500 false (Some 6%N) 1500 300))
             Scenario.running 2 (mkTimerState true 2 false None 1500 300)).
  - reflexivity.
  - vm_compute. reflexivity.
  - reflexivity.
  - discriminate.
  - vm_compute. reflexivity.
  - reflexivity.
  - reflexivity.
  - reflexivity.
  - lia.
  - reflexivity.
Defined.

(** ** The time display *)











(** ** The host's buttons and the server *)

(** X14. A participant's buttons do nothing. A host's button sends exactly
    the matching command, and when the host's local timer agrees with the
    durable one on the remaining time, the phase and the two durations,
    the local update made without waiting shows the same running flag,
    remaining time and phase as the state the server then broadcasts;
    merging that broadcast makes the local timer equal to it. *)
Theorem host_button_anticipates_server now sid sock roomId room st a localTs :
  sockets st !! sid = Some sock →
  currentRoom sock = Some roomId →
  roomId ≠ "" →
  Room st !! roomId = Some room →
  host room = userId sock →
  timeRemaining localTs = timeRemaining (timerState room) →
  isBreak localTs = isBreak (timerState room) →
  workDuration localTs = workDuration (timerState room) →
  breakDuration localTs = breakDuration (timerState room) →
  Client.button a false localTs = (localTs, [])
  ∧ (Client.button a true localTs).2 = [commandEvent a]
  ∧ ∃ newState,
      (handle now sid (commandEvent a) st).2
      = [mkEmission (members (adapter st) roomId)
           (timer_sync (sync_state newState))]
      ∧ isRunning (Client.button a true localTs).1 = isRunning newState
      ∧ timeRemaining (Client.button a true localTs).1 = timeRemaining newState
      ∧ isBreak (Client.button a true localTs).1 = isBreak newState
      ∧ Client.mergeSync (Client.button a true localTs).1 (sync_state newState)
        = newState.
Proof.
  intros Hsock Hcur Hid Hroom Hhost Ht Hb Hw Hbr.
  split; [by destruct a|]. split; [by destruct a|].
  rewrite (handle_host_command _ _ _ _ _ _ a Hsock Hcur Hid Hroom Hhost).
  eexists. split; [done|].
  destruct a; simpl; unfold phaseDuration; rewrite ?Ht, ?Hb, ?Hw, ?Hbr; done.
Qed.

Lemma host_button_anticipates_server_witness :
  (Client.button reset true (mkTimerState true 1500 false None 1500 300)).2
  = [timer_reset].
Proof.
  destruct (host_button_anticipates_server 9%N "A"
              (mkSocket "alice" "Alice" (Some "R1")) "R1"
              (mkRoomDoc "alice" (mkTimerState true 1500 false (Some 6%N) 1500 300))
              Scenario.running reset (mkTimerState true 1500 false None 1500 300))
    as (_ & Hev & _).
  - vm_compute. reflexivity.
  - reflexivity.
  - discriminate.
  - vm_compute. reflexivity.
  - reflexivity.
  - reflexivity.
  - reflexivity.
  - reflexivity.
  - reflexivity.
  - exact Hev.
Defined.

(** ** Timer-sync on the participant's side *)

(** X15. Of two timer-sync events that a client handles less than 500 ms
    apart, the second is ignored whatever it carries. So a participant
    that takes the host's last tick (0 remaining, still marked running)
    and, within half a second, the broadcast of the mode switch, is left
    with the tick: 0 remaining in the old phase, where its own countdown
    no longer moves. *)
Theorem second_sync_within_half_second_is_dropped t1 t2 last p1 p2 ts :
  500 ≤ t1 - last →
  t2 - t1 < 500 →
  Client.handleTimerSync t2 p2 (Client.handleTimerSync t1 p1 (ts, last))
  = (Client.mergeSync ts p1, t1)
  ∧ (∀ b running newState n isHost,
       p1 = sync_tick {| data_timeRemaining := 0; data_isRunning := running;
                         data_isBreak := b |} →
       p2 = sync_state newState →
       let view := (Client.handleTimerSync t2 p2
                      (Client.handleTimerSync t1 p1 (ts, last))).1 in
       timeRemaining view = 0
       ∧ isBreak view = b
       ∧ timeRemaining (Client.countdown isHost n view).1 = 0
       ∧ isBreak (Client.countdown isHost n view).1 = b
       ∧ (Client.countdown isHost n view).2 = []).
Proof.
  intros H1 H2.
  assert (Hfirst : Client.handleTimerSync t1 p1 (ts, last)
                   = (Client.mergeSync ts p1, t1)).
  { unfold Client.handleTimerSync.
    by replace (t1 - last <? 500) with false by (symmetry; apply Z.ltb_ge; lia). }
  assert (Hboth : Client.handleTimerSync t2 p2
                    (Client.handleTimerSync t1 p1 (ts, last))
                  = (Client.mergeSync ts p1, t1)).
  { rewrite Hfirst. unfold Client.handleTimerSync.
    by replace (t2 - t1 <? 500) with true by (symmetry; apply Z.ltb_lt; lia). }
  split; [exact Hboth|].
  intros b running newState n isHost -> -> view. subst view. rewrite Hboth.
  simpl. split; [done|]. split; [done|].
  assert (Hstay : ∀ v, timeRemaining v = 0 →
                       Client.countdown isHost n v = (v, [])).
  { intros v Hv. induction n as [|n IH]; [done|]. simpl.
    unfold clientTick. rewrite Hv. simpl. rewrite orb_true_r. by rewrite IH. }
  by rewrite Hstay.
Qed.

Lemma second_sync_within_half_second_is_dropped_witness :
  Client.handleTimerSync 2010
    (sync_state (mkTimerState false 300 true None 1500 300))
    (Client.handleTimerSync 2000 (sync_tick (mkTickData 0 true false))
       (mkTimerState true 1 false None 1500 300, 1000))
  = (mkTimerState true 0 false None 1500 300, 2000).
Proof.
  destruct (second_sync_within_half_second_is_dropped 2000 2010 1000
              (sync_tick (mkTickData 0 true false))
              (sync_state (mkTimerState false 300 true None 1500 300))
              (mkTimerState true 1 false None 1500 300)) as [Hboth _].
  - lia.
  - lia.
  - rewrite Hboth. reflexivity.
Defined.

(** ** The chat form and the server *)

Lemma trimStart_shape s :
  JsString.trimStart s = []
  ∨ ∃ c s', JsString.trimStart s = c :: s' ∧ JsString.isWhiteSpace c = false.
Proof.
  induction s as [|a s IH]; simpl; [by left|].
  destruct (JsString.isWhiteSpace a) eqn:Ha; [done|]. right. by exists a, s.
Qed.

Lemma trimStart_all_whitespace s :
  (∀ c, c ∈ s → JsString.isWhiteSpace c = true) → JsString.trimStart s = [].
Proof.
  induction s as [|a s IH]; intros Hall; simpl; [done|].
  rewrite (Hall a) by apply list_elem_of_here.
  apply IH. intros c Hc. by apply Hall, list_elem_of_further.
Qed.

Lemma trimStart_length s : (length (JsString.trimStart s) ≤ length s)%nat.
Proof.
  induction s as [|a s IH]; simpl; [done|].
  destruct (JsString.isWhiteSpace a); simpl; lia.
Qed.

Lemma trimStart_snoc l c :
  JsString.isWhiteSpace c = false →
  JsString.trimStart (l ++ [c]) = JsString.trimStart l ++ [c].
Proof.
  intros Hc. induction l as [|a l IH]; simpl.
  - by rewrite Hc.
  - by destruct (JsString.isWhiteSpace a).
Qed.

Lemma trimStart_idempotent s :
  JsString.trimStart (JsString.trimStart s) = JsString.trimStart s.
Proof.
  destruct (trimStart_shape s) as [->|(c & s' & -> & Hc)]; [done|].
  by apply trimStart_head.
Qed.

Lemma trimEnd_cons c s :
  JsString.isWhiteSpace c = false →
  JsString.trimEnd (c :: s) = c :: JsString.trimEnd s.
Proof.
  intros Hc. unfold JsString.trimEnd. simpl.
  by rewrite (trimStart_snoc _ _ Hc), rev_app_distr.
Qed.

Lemma trimEnd_idempotent s :
  JsString.trimEnd (JsString.trimEnd s) = JsString.trimEnd s.
Proof.
  unfold JsString.trimEnd. by rewrite rev_involutive, trimStart_idempotent.
Qed.

Lemma trim_shape s :
  JsString.trim s = []
  ∨ ∃ c s', JsString.trim s = c :: s' ∧ JsString.isWhiteSpace c = false.
Proof.
  unfold JsString.trim.
  destruct (trimStart_shape s) as [->|(c & s' & -> & Hc)]; [by left|].
  right. rewrite (trimEnd_cons _ _ Hc). by eexists _, _.
Qed.

Lemma trim_idempotent s : JsString.trim (JsString.trim s) = JsString.trim s.
Proof.
  assert (Hstart : JsString.trimStart (JsString.trim s) = JsString.trim s).
  { destruct (trim_shape s) as [->|(c & s' & -> & Hc)]; [done|].
    by apply trimStart_head. }
  change (JsString.trimEnd (JsString.trimStart (JsString.trim s)) = JsString.trim s).
  rewrite Hstart. unfold JsString.trim at 1 2. apply trimEnd_idempotent.
Qed.

Lemma trim_length s : (length (JsString.trim s) ≤ length s)%nat.
Proof.
  unfold JsString.trim, JsString.trimEnd. rewrite length_rev.
  pose proof (trimStart_length (rev (JsString.trimStart s))) as H1.
  rewrite length_rev in H1. pose proof (trimStart_length s). lia.
Qed.

Lemma last_rev (l : list N) : last (rev l) = head l.
Proof. destruct l as [|a l]; [done|]. simpl. apply last_snoc. Qed.

Lemma trim_ends s c :
  head (JsString.trim s) = Some c ∨ last (JsString.trim s) = Some c →
  JsString.isWhiteSpace c = false.
Proof.
  intros [Hh|Hl].
  - destruct (trim_shape s) as [Heq|(c' & s' & Heq & Hc)]; rewrite Heq in Hh;
      [done|]. simpl in Hh. congruence.
  - unfold JsString.trim, JsString.trimEnd in Hl. rewrite last_rev in Hl.
    destruct (trimStart_shape (rev (JsString.trimStart s)))
      as [Heq|(c' & s' & Heq & Hc)]; rewrite Heq in Hl; [done|].
    simpl in Hl. congruence.
Qed.

Lemma trim_empty_iff s :
  JsString.trim s = [] ↔ ∀ c, c ∈ s → JsString.isWhiteSpace c = true.
Proof.
  split.
  - intros Hnil c Hc. destruct (JsString.isWhiteSpace c) eqn:Hws; [done|].
    destruct (trim_nonempty s); [by exists c|done].
  - intros Hall. unfold JsString.trim.
    by rewrite (trimStart_all_whitespace s Hall).
Qed.

(** X16. The chat form sends nothing exactly when its input is empty or
    all whitespace. What it does send reaches the store unchanged: for a
    joined connection the server broadcasts and stores a message whose
    content is the trimmed input, which is not empty, neither starts nor
    ends with whitespace, and is no longer than what was typed. *)
Theorem chat_form_content_is_stored_clean now sid sock roomId st input :
  sockets st !! sid = Some sock →
  currentRoom sock = Some roomId →
  roomId ≠ "" →
  (Client.handleSubmit input = None
   ↔ ∀ c, c ∈ input → JsString.isWhiteSpace c = true)
  ∧ (∀ ev, Client.handleSubmit input = Some ev →
       let m := newMessage now sock (JsString.trim input) in
       let r := handle now sid ev st in
       content m = JsString.trim input
       ∧ content m ≠ []
       ∧ (length (content m) ≤ length input)%nat
       ∧ (∀ c, head (content m) = Some c ∨ last (content m) = Some c →
               JsString.isWhiteSpace c = false)
       ∧ roomMessages r.1 !! roomId = pushBounded m <$> roomMessages st !! roomId
       ∧ r.2 = [mkEmission (members (adapter st) roomId) (receive_message m)]).
Proof.
  intros Hsock Hcur Hid. split.
  - unfold Client.handleSubmit. rewrite <- trim_empty_iff.
    by destruct (JsString.trim input).
  - intros ev Hev m r. unfold Client.handleSubmit in Hev.
    assert (Hne : JsString.trim input ≠ []).
    { intros Heq. by rewrite Heq in Hev. }
    assert (Hev' : ev = send_message (JsString.trim input)).
    { destruct (JsString.trim input); [done|]. simpl in Hev. congruence. }
    assert (Hm : newMessage now sock (JsString.trim input) = m).
    { subst m. unfold newMessage. by rewrite trim_idempotent. }
    subst r. rewrite Hev'.
    rewrite (handle_send_message _ _ _ _ _ _ Hsock Hcur Hid Hne), Hm.
    assert (Hc : content m = JsString.trim input).
    { subst m. simpl. apply trim_idempotent. }
    rewrite Hc. split; [done|]. split; [done|].
    split; [apply trim_length|]. split; [apply trim_ends|].
    split; [|done]. simpl.
    destruct (roomMessages st !! roomId) eqn:Hh; simpl;
      [by rewrite lookup_insert_eq|done].
Qed.

Lemma chat_form_content_is_stored_clean_witness :
  map content
    (history (handle 7%N "A" (send_message (JsString.lit "hello"))
                Scenario.joinedAB).1 "R1")
  = [JsString.lit "hello"].
Proof.
  destruct (chat_form_content_is_stored_clean 7%N "A"
              (mkSocket "alice" "Alice" (Some "R1")) "R1" Scenario.joinedAB
              (JsString.lit " hello  ")) as [_ Hsent].
  - vm_compute. reflexivity.
  - reflexivity.
  - discriminate.
  - destruct (Hsent (send_message (JsString.lit "hello")))
      as (_ & _ & _ & _ & Hstore & _); [reflexivity|].
    unfold history. rewrite Hstore. vm_compute. reflexivity.
Defined.

(** * Properties of the authentication middleware *)

Lemma string_app_cons (a : ascii) (s t : string) :
  String a s +:+ t = String a (s +:+ t).
Proof. reflexivity. Qed.

Lemma string_app_nil (t : string) : "" +:+ t = t.
Proof. reflexivity. Qed.

Lemma split_first_piece (tok tail : string) :
  " "%char ∉ String.list_ascii_of_string tok →
  (tail = "" ∨ ∃ t, tail = String " " t) →
  ∃ ws, Auth.split " " (tok +:+ tail) = tok :: ws.
Proof.
  intros Htok Htail. induction tok as [|a tok IH].
  - rewrite string_app_nil. destruct Htail as [->|[t ->]]; simpl; by eexists.
  - simpl in Htok. apply not_elem_of_cons in Htok as [Ha Htok].
    rewrite string_app_cons. simpl.
    destruct (Ascii.eqb a " ") eqn:Heq.
    + apply Ascii.eqb_eq in Heq. congruence.
    + destruct (IH Htok) as [ws ->]. by eexists.
Qed.

Section ProtectFacts.

Context {User : Type}.
Variable verifyToken : string → option Auth.Decoded.
Variable findById : string → option User.

(** X17. [protect] lets a request through only with the user found for a
    token that verifies. Without an Authorization header, with an empty
    one or with one that does not start with "Bearer ", the answer is 401
    "No token provided" whatever the token check would say. Otherwise the
    token checked is the text between the first space and the next one:
    what follows a second space is ignored; a token that does not verify
    gives 401 "Invalid token", a verified one whose user is unknown gives
    401 "User not found". *)
Theorem protect_checks_the_bearer_token (tok tail : string) :
  " "%char ∉ String.list_ascii_of_string tok →
  (tail = "" ∨ ∃ t, tail = String " " t) →
  Auth.protect verifyToken findById (Some ("Bearer " +:+ tok +:+ tail))
  = match verifyToken tok with
    | None => Auth.status401 "Not authorized - Invalid token"
    | Some decoded =>
        match findById (Auth.dec_id decoded) with
        | None => Auth.status401 "Not authorized - User not found"
        | Some user => Auth.next user
        end
    end
  ∧ (∀ authorization,
       (∀ h, authorization = Some h → String.prefix "Bearer " h = false) →
       Auth.protect verifyToken findById authorization
       = Auth.status401 "Not authorized - No token provided")
  ∧ (∀ authorization user,
       Auth.protect verifyToken findById authorization = Auth.next user →
       ∃ h token decoded,
         authorization = Some h
         ∧ String.prefix "Bearer " h = true
         ∧ Auth.split " " h !! 1%nat = Some token
         ∧ verifyToken token = Some decoded
         ∧ findById (Auth.dec_id decoded) = Some user).
Proof.
  intros Htok Htail. split; [|split].
  - destruct (split_first_piece tok tail Htok Htail) as [ws Hws].
    unfold Auth.protect. rewrite !string_app_cons, string_app_nil.
    simpl. rewrite Hws.
    replace (String.prefix "" (tok +:+ tail)) with true
      by (by destruct (tok +:+ tail)).
    done.
  - intros authorization Hno. unfold Auth.protect.
    destruct authorization as [[|a h]|]; simpl; [done| |done].
    specialize (Hno (String a h) eq_refl). simpl in Hno. by rewrite Hno.
  - intros authorization user. unfold Auth.protect.
    destruct (Auth.present authorization) as [h|] eqn:Hp; [|done].
    assert (authorization = Some h) as ->.
    { destruct authorization as [[|a h']|]; simpl in Hp; congruence. }
    destruct (String.prefix "Bearer " h) eqn:Hpre; [|done].
    destruct (Auth.split " " h !! 1%nat) as [token|] eqn:Htoken; [|done].
    destruct (verifyToken token) as [decoded|] eqn:Hv; [|done].
    destruct (findById (Auth.dec_id decoded)) as [u|] eqn:Hf; [|done].
    intros [= <-]. by exists h, token, decoded.
Qed.

End ProtectFacts.

Lemma protect_checks_the_bearer_token_witness :
  Auth.protect
    (λ t, if String.eqb t "good" then Some (Auth.mkDecoded "u1" "alice") else None)
    (λ id, if String.eqb id "u1" then Some "alice-record" else None)
    (Some "Bearer good trailing")
  = Auth.next "alice-record".
Proof.
  destruct (protect_checks_the_bearer_token
              (λ t, if String.eqb t "good"
                    then Some (Auth.mkDecoded "u1" "alice") else None)
              (λ id, if String.eqb id "u1" then Some "alice-record" else None)
              "good" " trailing") as [Hok _].
  - vm_compute. intros H. repeat (apply elem_of_cons in H as [H|H]; [discriminate|]).
    by apply elem_of_nil in H.
  - right. by eexists.
  - exact Hok.
Defined.

(** X18. The socket handshake is refused without a token, with an empty
    one, or with one that does not verify. A verified token gives the
    socket the id and name it carries, and that id is what timer authority
    is decided on: once such a connection has joined a room, its
    timer-start starts the durable timer and is broadcast when the token's
    id is the room's host, and is answered with the single error
    otherwise, leaving the state as it was. *)
Theorem token_identity_decides_timer_authority
    (verifyToken : string → option Auth.Decoded) t decoded
    sid roomId room st now1 now2 now3 :
  t ≠ "" →
  verifyToken t = Some decoded →
  sockets st !! sid = None →
  Room st !! roomId = Some room →
  roomId ≠ "" →
  let joined :=
    (run [ (now1, connection sid (Auth.dec_id decoded) (Auth.dec_username decoded));
           (now2, recv sid (join_room roomId)) ] st).1 in
  Auth.ioUse verifyToken (Some t)
    = inr (Auth.dec_id decoded, Auth.dec_username decoded)
  ∧ Auth.ioUse verifyToken None = inl "Authentication required"
  ∧ Auth.ioUse verifyToken (Some "") = inl "Authentication required"
  ∧ (∀ t', t' ≠ "" → verifyToken t' = None →
           Auth.ioUse verifyToken (Some t') = inl "Invalid token")
  ∧ (Auth.dec_id decoded = host room →
       timerState <$> Room (handle now3 sid timer_start joined).1 !! roomId
       = Some {| isRunning := true;
                 timeRemaining := timeRemaining (timerState room);
                 isBreak := isBreak (timerState room);
                 startedAt := Some now3;
                 workDuration := workDuration (timerState room);
                 breakDuration := breakDuration (timerState room) |}
       ∧ map event (handle now3 sid timer_start joined).2
         = [timer_sync (sync_state
              {| isRunning := true;
                 timeRemaining := timeRemaining (timerState room);
                 isBreak := isBreak (timerState room);
                 startedAt := Some now3;
                 workDuration := workDuration (timerState room);
                 breakDuration := breakDuration (timerState room) |})])
  ∧ (Auth.dec_id decoded ≠ host room →
       handle now3 sid timer_start joined
       = (joined, [mkEmission {[sid]} (error "Only the host can control the timer")])).
Proof.
  intros Ht Hv Hfresh Hroom Hid joined.
  assert (Hpresent : ∀ s, s ≠ "" → Auth.present (Some s) = Some s).
  { intros [|a s] Hs; [done|done]. }
  split; [unfold Auth.ioUse; by rewrite (Hpresent t Ht), Hv|].
  split; [done|]. split; [done|].
  split; [intros t' Ht' Hv'; unfold Auth.ioUse; by rewrite (Hpresent t' Ht'), Hv'|].
  set (sock0 := {| userId := Auth.dec_id decoded;
                   username := Auth.dec_username decoded;
                   currentRoom := None |}).
  set (sock := {| userId := Auth.dec_id decoded;
                  username := Auth.dec_username decoded;
                  currentRoom := Some roomId |}).
  set (st1 := onConnection sid (Auth.dec_id decoded) (Auth.dec_username decoded) st).
  assert (Hs1 : sockets st1 !! sid = Some sock0).
  { unfold st1, onConnection. rewrite Hfresh. simpl. by rewrite lookup_insert_eq. }
  assert (Hr1 : Room st1 !! roomId = Some room).
  { unfold st1, onConnection. by rewrite Hfresh. }
  assert (Hjoined : joined = (handle now2 sid (join_room roomId) st1).1).
  { subst joined. simpl. fold st1.
    by destruct (handle now2 sid (join_room roomId) st1). }
  assert (Hdb : Room joined = Room st1).
  { rewrite Hjoined. unfold handle. rewrite Hs1.
    by rewrite (onJoinRoom_found _ _ _ _ _ Hr1). }
  assert (Hsock : sockets joined !! sid = Some sock).
  { rewrite Hjoined. unfold handle. rewrite Hs1.
    rewrite (onJoinRoom_found _ _ _ _ _ Hr1). simpl. by rewrite lookup_insert_eq. }
  assert (Hroom' : Room joined !! roomId = Some room) by by rewrite Hdb.
  split.
  - intros Hhost.
    change timer_start with (commandEvent start).
    rewrite (handle_host_command now3 sid sock roomId room joined start
               Hsock eq_refl Hid Hroom' (eq_sym Hhost)).
    simpl. by rewrite (findOneAndUpdate_lookup _ _ _ _ Hroom').
  - intros Hhost. unfold handle. rewrite Hsock.
    apply (handleTimerAction_not_host now3 sid sock roomId room joined eq_refl
             Hid Hroom'). simpl. congruence.
Qed.

Lemma token_identity_decides_timer_authority_witness :
  Auth.ioUse (λ t, if String.eqb t "tok" then Some (Auth.mkDecoded "bob" "Bob")
                   else None) (Some "tok")
  = inr ("bob", "Bob").
Proof.
  destruct (token_identity_decides_timer_authority
              (λ t, if String.eqb t "tok" then Some (Auth.mkDecoded "bob" "Bob")
                    else None)
              "tok" (Auth.mkDecoded "bob" "Bob") "Z" "R2"
              (mkRoomDoc "bob" defaultTimerState) Scenario.joinedAB
              7%N 8%N 9%N) as (Hid & _).
  - discriminate.
  - reflexivity.
  - vm_compute. reflexivity.
  - vm_compute. reflexivity.
  - discriminate.
  - exact Hid.
Defined.

(** * Properties of the front-end middleware *)

(** X19. The front-end middleware never sends a browser in circles: the
    page it redirects to is let through when requested with the same
    cookie. A request without a token is redirected, to the login page and
    with its own path kept in [from], exactly when its path starts with
    /dashboard or /room; one with a token is redirected, to the dashboard,
    exactly when its path starts with /auth/login or /auth/register. *)
Theorem middleware_redirects_once pathname token :
  let hasToken := bool_decide (is_Some (Auth.present token)) in
  let under routes := existsb (λ route, String.prefix route pathname) routes in
  (∀ target from,
     Next.middleware pathname token = Next.redirect target from →
     Next.middleware target token = Next.next)
  ∧ (Next.middleware pathname token = Next.redirect "/auth/login" (Some pathname)
     ↔ hasToken = false ∧ under Next.protectedRoutes = true)
  ∧ (Next.middleware pathname token = Next.redirect "/dashboard" None
     ↔ hasToken = true ∧ under Next.authRoutes = true).
Proof.
  intros hasToken under. subst hasToken under. unfold Next.middleware.
  destruct (bool_decide (is_Some (Auth.present token))) eqn:Htok;
    destruct (existsb (λ route, String.prefix route pathname) Next.protectedRoutes)
      eqn:Hprot;
    destruct (existsb (λ route, String.prefix route pathname) Next.authRoutes)
      eqn:Hauth; simpl;
    (split; [|split; split; (done || by intros [? ?])]);
    intros target from [= <- <-] || intros target from Heq; try done;
    vm_compute; reflexivity.
Qed.

(** * Properties of the REST controller *)

(** X20. Joining a room over REST is idempotent and keeps the participant
    list free of duplicates: the user is in the list afterwards, those
    already there keep their order, a second join changes nothing and gets
    the same answer, other rooms are untouched, and an unknown room id
    gives 404 with the collection unchanged. *)
Theorem rest_joinRoom_is_idempotent user roomId rooms :
  let r1 := Rest.joinRoom user roomId rooms in
  (rooms !! roomId = None → r1 = (rooms, Rest.status404))
  ∧ (∀ room, rooms !! roomId = Some room →
       ∃ room',
         r1.1 !! roomId = Some room'
         ∧ r1.2 = Rest.status200 room'
         ∧ user ∈ Rest.participants room'
         ∧ Rest.participants room `prefix_of` Rest.participants room'
         ∧ (NoDup (Rest.participants room) → NoDup (Rest.participants room'))
         ∧ Rest.host room' = Rest.host room
         ∧ Rest.timerState room' = Rest.timerState room
         ∧ Rest.joinRoom user roomId r1.1 = (r1.1, Rest.status200 room'))
  ∧ (∀ other, other ≠ roomId → r1.1 !! other = rooms !! other).
Proof.
  intros r1. subst r1. unfold Rest.joinRoom. split; [by intros ->|]. split.
  - intros room Hroom. rewrite Hroom.
    destruct (decide (user ∈ Rest.participants room)) as [Hin|Hout]; simpl.
    + exists room. rewrite Hroom, decide_True by done. done.
    + eexists. rewrite lookup_insert_eq. split; [done|]. split; [done|]. simpl.
      split; [apply elem_of_app; right; apply list_elem_of_here|].
      split; [by apply prefix_app_r|].
      split.
      { intros Hnd. apply NoDup_app. split; [done|]. split; [|apply NoDup_singleton].
        intros x Hx ->%list_elem_of_singleton. done. }
      split; [done|]. split; [done|].
      rewrite decide_True; [done|].
      apply elem_of_app. right. apply list_elem_of_here.
  - intros other Hne. destruct (rooms !! roomId) as [room|]; [|done].
    destruct (decide (user ∈ Rest.participants room)); simpl; [done|].
    by rewrite lookup_insert_ne.
Qed.

Lemma rest_joinRoom_is_idempotent_witness :
  Rest.participants <$>
    (Rest.joinRoom "bob" "R1"
       (Rest.joinRoom "bob" "R1"
          {[ "R1" := Rest.mkRoomRecord "Study" "alice" ["alice"] defaultTimerState ]}).1).1
      !! "R1"
  = Some ["alice"; "bob"].
Proof.
  destruct (rest_joinRoom_is_idempotent "bob" "R1"
              {[ "R1" := Rest.mkRoomRecord "Study" "alice" ["alice"]
                           defaultTimerState ]})
    as (_ & Hjoin & _).
  destruct (Hjoin (Rest.mkRoomRecord "Study" "alice" ["alice"] defaultTimerState))
    as (room' & Hdb & _ & _ & _ & _ & _ & _ & Hagain).
  - vm_compute. reflexivity.
  - rewrite Hagain. simpl. vm_compute. reflexivity.
Defined.

Lemma middleware_redirects_once_witness :
  Next.middleware "/room/ABC123" None
  = Next.redirect "/auth/login" (Some "/room/ABC123")
  ∧ Next.middleware "/auth/login" None = Next.next.
Proof.
  destruct (middleware_redirects_once "/room/ABC123" None) as (Honce & Hlogin & _).
  assert (Hred : Next.middleware "/room/ABC123" None
                 = Next.redirect "/auth/login" (Some "/room/ABC123")).
  { apply Hlogin. split; vm_compute; reflexivity. }
  split; [exact Hred|]. exact (Honce _ _ Hred).
Defined.

(** * More on presence and on connections that have not joined *)



Lemma members_adapterLeaveAll sid a r :
  members (adapterLeaveAll sid a) r = members a r ∖ {[sid]}.
Proof.
  apply set_eq. intros x.
  rewrite elem_members_adapterLeaveAll, elem_of_difference, elem_of_singleton.
  tauto.
Qed.

(** X22. A disconnect does to the presence table, the chat histories and
    the collection exactly what a leave-room does; it produces the same
    notifications, except that none of them is addressed to the socket
    that is gone; and it removes the socket, so that nothing it might
    still send is handled. *)
Theorem disconnect_is_leave_then_removal now sid sock st :
  sockets st !! sid = Some sock →
  let d := handle now sid disconnect st in
  let l := handle now sid leave_room st in
  Room d.1 = Room l.1
  ∧ roomMessages d.1 = roomMessages l.1
  ∧ roomUsers d.1 = roomUsers l.1
  ∧ sockets d.1 = delete sid (sockets st)
  ∧ map event d.2 = map event l.2
  ∧ map recipients d.2 = map (λ e, recipients e ∖ {[sid]}) l.2
  ∧ (∀ now' ev, handle now' sid ev d.1 = (d.1, [])).
Proof.
  intros Hsock d l.
  assert (Hd : d = onDisconnect sid sock st).
  { subst d. unfold handle. by rewrite Hsock. }
  assert (Hl : l = handleLeaveRoom sid sock st).
  { subst l. unfold handle. by rewrite Hsock. }
  assert (Hgone : sockets d.1 = delete sid (sockets st)).
  { rewrite Hd. unfold onDisconnect.
    destruct (handleLeaveRoom_sockets_adapter sid sock
                (with_adapter (adapterLeaveAll sid) st)) as [Hs _].
    destruct (handleLeaveRoom sid sock (with_adapter (adapterLeaveAll sid) st))
      as [st1 out]. simpl in *. rewrite Hs.
    destruct (joinedRoom sock); [by rewrite delete_insert_eq|done]. }
  assert (Hrest : Room d.1 = Room l.1 ∧ roomMessages d.1 = roomMessages l.1
                  ∧ roomUsers d.1 = roomUsers l.1
                  ∧ map event d.2 = map event l.2
                  ∧ map recipients d.2 = map (λ e, recipients e ∖ {[sid]}) l.2).
  { rewrite Hd, Hl. unfold onDisconnect, handleLeaveRoom.
    destruct (joinedRoom sock) as [roomId|]; [|done]. simpl.
    destruct (roomUsers st !! roomId) as [users|]; [|done].
    destruct (decide (JsMap.size (JsMap.delete sid users) = 0%nat)); simpl;
      [done|].
    unfold ioTo. simpl. by rewrite !members_adapterLeaveAll. }
  destruct Hrest as (? & ? & ? & ? & ?).
  repeat split; try done.
  intros now' ev. unfold handle. by rewrite Hgone, lookup_delete_eq.
Qed.

Lemma disconnect_is_leave_then_removal_witness :
  map (λ e, elements (recipients e))
    (handle 9%N "B" disconnect Scenario.joinedAB).2
  = [["A"]; ["A"]; ["A"]].
Proof.
  destruct (disconnect_is_leave_then_removal 9%N "B"
              (mkSocket "bob" "Bob" (Some "R1")) Scenario.joinedAB)
    as (_ & _ & _ & _ & _ & Hrec & _).
  - vm_compute. reflexivity.
  - rewrite <- (map_map recipients elements), Hrec. vm_compute. reflexivity.
Defined.





